(** * NBA_ML.py: a shallow embedding of the feature pipeline and of the
      model-selection harness, with the properties of its specification.

    The script is one straight-line [main]: it cleans three CSV tables,
    joins them with pandas, derives calendar and long-run features, drops
    the columns that leak the label, fits a fixed panel of scikit-learn
    classifiers, picks the one with the best AUC, rebuilds it by name and
    reports on it.

    Layout of this file:
    - Python values, exceptions and the error monad;
    - [Datetime]: the proleptic Gregorian calendar of Python's [datetime];
    - [Pandas]: data frames (ordered, labelled rows of named cells) and the
      pandas operations the script calls;
    - [Script]: the feature pipeline of [main], statement by statement;
    - [Learn]: estimator objects, the scikit-learn interface, the panel
      loop, the selection and the explainability stage;
    - the properties. *)

From Stdlib Require Import ZArith QArith Lia Ascii.
From stdpp Require Import base option list strings gmap.

Local Open Scope Z_scope.

(** ** Python values and exceptions *)

(** A cell of a data frame: a missing value, an integer, a float (floats
    are modelled by exact rationals), or a string. *)
Inductive cell : Type :=
  | NaN
  | Int (z : Z)
  | Flt (q : Q)
  | Str (s : string).

(** The built-in exception classes that the script can run into; the
    argument is the message or the offending name. *)
Inductive exn : Type :=
  | KeyError (key : string)
  | ValueError (msg : string)
  | TypeError (msg : string)
  | NameError (name : string)
  | AttributeError (attr : string).

(** A computation that returns or raises.  Nothing in the script catches
    an exception, so a raise always reaches the caller of [main]. *)
Inductive result (A : Type) : Type :=
  | Ok (a : A)
  | Raise (e : exn).
Arguments Ok {A} a.
Arguments Raise {A} e.

#[global] Instance result_ret : MRet result := λ A a, Ok a.
#[global] Instance result_bind : MBind result :=
  λ A B f m, match m with Ok a => f a | Raise e => Raise e end.
#[global] Instance result_fmap : FMap result :=
  λ A B f m, match m with Ok a => Ok (f a) | Raise e => Raise e end.

Definition is_ok {A} (m : result A) : bool :=
  match m with Ok _ => true | Raise _ => false end.

(** The numeric value of a cell, when it has one. *)
Definition cell_num (c : cell) : option Q :=
  match c with
  | Int z => Some (inject_Z z)
  | Flt q => Some q
  | NaN | Str _ => None
  end.

Definition is_nan (c : cell) : bool :=
  match c with NaN => true | _ => false end.

(** ** Python's [datetime]: ordinals, dates and weekdays *)

Module Datetime.

(** [_DAYS_IN_MONTH] and [_DAYS_BEFORE_MONTH], with the placeholder -1 at
    index 0. *)
Definition DAYS_IN_MONTH : list Z :=
  [-1; 31; 28; 31; 30; 31; 30; 31; 31; 30; 31; 30; 31].
Definition DAYS_BEFORE_MONTH : list Z :=
  [-1; 0; 31; 59; 90; 120; 151; 181; 212; 243; 273; 304; 334].

Definition at_month (tbl : list Z) (month : Z) : Z :=
  nth (Z.to_nat month) tbl (-1).

Definition is_leap (year : Z) : bool :=
  (year mod 4 =? 0) && (negb (year mod 100 =? 0) || (year mod 400 =? 0)).

Definition days_before_year (year : Z) : Z :=
  let y := year - 1 in
  y * 365 + y / 4 - y / 100 + y / 400.

Definition days_before_month (year month : Z) : Z :=
  at_month DAYS_BEFORE_MONTH month
  + (if (2 <? month) && is_leap year then 1 else 0).

Definition ymd2ord (year month day : Z) : Z :=
  days_before_year year + days_before_month year month + day.

Definition DI400Y : Z := days_before_year 401.
Definition DI100Y : Z := days_before_year 101.
Definition DI4Y : Z := days_before_year 5.

(** [_ord2ymd]: ordinal 1 is 0001-01-01. *)
Definition ord2ymd (ordinal : Z) : Z * Z * Z :=
  let n := ordinal - 1 in
  let n400 := n / DI400Y in
  let n := n mod DI400Y in
  let year := n400 * 400 + 1 in
  let n100 := n / DI100Y in
  let n := n mod DI100Y in
  let n4 := n / DI4Y in
  let n := n mod DI4Y in
  let n1 := n / 365 in
  let n := n mod 365 in
  let year := year + n100 * 100 + n4 * 4 + n1 in
  if (n1 =? 4) || (n100 =? 4) then (year - 1, 12, 31)
  else
    let leapyear := (n1 =? 3) && (negb (n4 =? 24) || (n100 =? 3)) in
    let month := Z.shiftr (n + 50) 5 in
    let preceding :=
      at_month DAYS_BEFORE_MONTH month
      + (if (2 <? month) && leapyear then 1 else 0) in
    if n <? preceding then
      let month := month - 1 in
      let preceding :=
        preceding
        - (at_month DAYS_IN_MONTH month
           + (if (month =? 2) && leapyear then 1 else 0)) in
      (year, month, n - preceding + 1)
    else (year, month, n - preceding + 1).

Definition MAXORDINAL : Z := 3652059.

(** A [datetime] value at midnight: the script never sets a time of day. *)
Record datetime : Type := mk_datetime { year : Z; month : Z; day : Z }.

Definition toordinal (d : datetime) : Z := ymd2ord (year d) (month d) (day d).

(** [datetime.fromordinal]: ordinals below 1 or past 9999-12-31 raise. *)
Definition fromordinal (n : Z) : result datetime :=
  if n <? 1 then Raise (ValueError "ordinal must be >= 1")
  else if MAXORDINAL <? n then Raise (ValueError "year is out of range")
  else let '(y, m, d) := ord2ymd n in Ok (mk_datetime y m d).

(** [weekday()]: Monday is 0, Sunday is 6. *)
Definition weekday (d : datetime) : Z := (toordinal d + 6) mod 7.

Definition digit (n : Z) : string :=
  String (Ascii.ascii_of_nat (48 + Z.to_nat n)) "".

(** [strftime("%m")]: the month as two decimal digits. *)
Definition strftime_m (d : datetime) : string :=
  digit (month d / 10) +:+ digit (month d mod 10).

(** The last lines of [_ord2ymd] on their own: the month and the day of
    day [n] (from 0) of a year. *)
Definition month_day (n : Z) (leapyear : bool) : Z * Z :=
  let month := Z.shiftr (n + 50) 5 in
  let preceding :=
    at_month DAYS_BEFORE_MONTH month
    + (if (2 <? month) && leapyear then 1 else 0) in
  if n <? preceding then
    let month := month - 1 in
    let preceding :=
      preceding
      - (at_month DAYS_IN_MONTH month
         + (if (month =? 2) && leapyear then 1 else 0)) in
    (month, n - preceding + 1)
  else (month, n - preceding + 1).

(** What [month_day] owes: a month, a day, and as many days before them as
    asked. *)
Definition month_day_ok (leapyear : bool) (n : Z) : bool :=
  let '(m, d) := month_day n leapyear in
  (1 <=? m) && (m <=? 12) && (1 <=? d) && (d <=? 31)
  && (at_month DAYS_BEFORE_MONTH m
      + (if (2 <? m) && leapyear then 1 else 0) + d =? n + 1).

End Datetime.

(** ** pandas: data frames and the operations the script calls *)

Module Pandas.

(** A row lists its cells under their column labels, in column order; a
    label may occur twice, as in pandas.  A frame keeps its column labels
    (they exist even when there is no row) and its rows, each under its
    index label.  The script only ever has integer index labels: the
    [RangeIndex] of [read_csv] and of [merge], and what is left of it after
    [dropna]. *)
Definition row : Type := list (string * cell).

Record frame : Type := Frame { columns : list string; rows : list (Z * row) }.

(** [row[c]]: the first cell under label [c]. *)
Fixpoint row_get (c : string) (r : row) : option cell :=
  match r with
  | [] => None
  | (k, v) :: r' => if decide (k = c) then Some v else row_get c r'
  end.

Definition labels (df : frame) : list Z := map fst (rows df).

Definition has_column (c : string) (df : frame) : bool :=
  bool_decide (c ∈ columns df).

(** Any access to a column that is absent raises [KeyError]. *)
Definition require (c : string) (df : frame) : result unit :=
  if has_column c df then Ok () else Raise (KeyError c).

Fixpoint require_all (cs : list string) (df : frame) : result unit :=
  match cs with
  | [] => Ok ()
  | c :: cs' => _ ← require c df; require_all cs' df
  end.

(** A fresh [RangeIndex]: 0, 1, 2, ... *)
Definition reset_index (rs : list row) : list (Z * row) :=
  imap (λ i r, (Z.of_nat i, r)) rs.

(** What [read_csv] hands over: a header and the records under it. *)
Record csv : Type := Csv { header : list string; records : list (list cell) }.

Definition read_csv (f : csv) : frame :=
  Frame (header f) (reset_index (map (zip (header f)) (records f))).

Definition map_cells (f : cell → cell) (df : frame) : frame :=
  Frame (columns df)
        (map (λ lr, (lr.1, map (λ kv, (kv.1, f kv.2)) lr.2)) (rows df)).

Definition map_labels (f : string → string) (r : row) : row :=
  map (λ kv, (f kv.1, kv.2)) r.

Definition relabel (f : string → string) (df : frame) : frame :=
  Frame (map f (columns df)) (map (λ lr, (lr.1, map_labels f lr.2)) (rows df)).

(** [df.replace("", nan)] *)
Definition replace_empty_cell (v : cell) : cell :=
  match v with
  | Str EmptyString => NaN
  | _ => v
  end.

Definition replace_empty (df : frame) : frame := map_cells replace_empty_cell df.

(** [df.dropna()]: the rows without a missing cell, under their old labels. *)
Definition row_has_nan (r : row) : bool := existsb (λ kv, is_nan kv.2) r.

Definition dropna (df : frame) : frame :=
  Frame (columns df) (List.filter (λ lr, negb (row_has_nan lr.2)) (rows df)).

(** [df.drop(columns=cs)] and [df.drop(cs, axis=1)]: an absent label
    raises; every column under a listed label goes. *)
Definition row_drop (cs : list string) (r : row) : row :=
  List.filter (λ kv, negb (bool_decide (kv.1 ∈ cs))) r.

Definition drop_columns (cs : list string) (df : frame) : result frame :=
  _ ← require_all cs df;
  Ok (Frame (List.filter (λ c, negb (bool_decide (c ∈ cs))) (columns df))
            (map (λ lr, (lr.1, row_drop cs lr.2)) (rows df))).

(** [df.rename(columns={old: new, ...})]: labels outside the mapping stay. *)
Fixpoint rename_label (m : list (string * string)) (c : string) : string :=
  match m with
  | [] => c
  | (old, new) :: m' => if decide (old = c) then new else rename_label m' c
  end.

Definition rename (m : list (string * string)) (df : frame) : frame :=
  relabel (rename_label m) df.

(** [df.add_suffix(s)] *)
Definition add_suffix (s : string) (df : frame) : frame :=
  relabel (λ c, c +:+ s) df.

(** [df[[c1, ..., cn]]]: the listed columns, in the listed order. *)
Definition row_select (cs : list string) (r : row) : row :=
  omap (λ c, (λ v, (c, v)) <$> row_get c r) cs.

Definition select (cs : list string) (df : frame) : result frame :=
  _ ← require_all cs df;
  Ok (Frame cs (map (λ lr, (lr.1, row_select cs lr.2)) (rows df))).

(** Equality of join keys and of group keys: numbers by value, strings by
    content; missing keys pair with missing keys. *)
Definition cell_eqb (a b : cell) : bool :=
  match a, b with
  | NaN, NaN => true
  | Str s, Str t => bool_decide (s = t)
  | _, _ =>
      match cell_num a, cell_num b with
      | Some p, Some q => Qeq_bool p q
      | _, _ => false
      end
  end.

Definition key_eqb (a b : option cell) : bool :=
  match a, b with
  | Some x, Some y => cell_eqb x y
  | _, _ => false
  end.

(** Columns that both sides of a merge carry (the join key apart) get the
    suffixes [_x] and [_y]. *)
Definition overlap (on lcols rcols : list string) : list string :=
  List.filter (λ c, bool_decide (c ∈ rcols) && negb (bool_decide (c ∈ on))) lcols.

Definition suffixed (ovl : list string) (sfx : string) (c : string) : string :=
  if bool_decide (c ∈ ovl) then c +:+ sfx else c.

Definition nan_row (cs : list string) : row := map (λ c, (c, NaN)) cs.

(** [pd.merge(left, right, on=key, how="left")]: every left row, in order,
    once per right row with an equal key, or once with missing cells when
    there is none; the result gets a fresh index. *)
Definition merge_left (on : string) (left right : frame) : result frame :=
  _ ← require on left;
  _ ← require on right;
  let ovl := overlap [on] (columns left) (columns right) in
  let fl := suffixed ovl "_x" in
  let fr := suffixed ovl "_y" in
  let rcols := List.filter (λ c, negb (bool_decide (c = on))) (columns right) in
  let joined :=
    flat_map (λ lr,
      let r := map_labels fl lr.2 in
      match List.filter (λ ls, key_eqb (row_get on lr.2) (row_get on ls.2))
                        (rows right) with
      | [] => [r ++ nan_row (map fr rcols)]
      | ms => map (λ ls, r ++ map_labels fr (row_drop [on] ls.2)) ms
      end) (rows left) in
  Ok (Frame (map fl (columns left) ++ map fr rcols) (reset_index joined)).

(** Non-decreasing labels, as [merge_asof] demands of both sides. *)
Fixpoint sorted (l : list Z) : bool :=
  match l with
  | [] => true
  | x :: l' =>
      match l' with
      | [] => true
      | y :: _ => (x <=? y) && sorted l'
      end
  end.

(** The backward search of [merge_asof] with [allow_exact_matches=False]:
    among the right rows of the same group whose join key is strictly below
    [key], the last one. *)
Definition asof_prior (right_by : string) (rs : list (Z * row))
    (key : Z) (group : option cell) : option (Z * row) :=
  last (List.filter (λ ls, (ls.1 <? key) && key_eqb group (row_get right_by ls.2)) rs).

(** [pd.merge_asof(left, right, left_index=True, right_index=True,
    left_by=.., right_by=.., allow_exact_matches=False)]: the join key of
    each side is its index label.  Every left row stays, under its label;
    the right cells are missing where the search finds nothing. *)
Definition merge_asof_index (left_by right_by : string) (left right : frame)
    : result frame :=
  _ ← require left_by left;
  _ ← require right_by right;
  if negb (sorted (labels left)) then Raise (ValueError "left keys must be sorted")
  else if negb (sorted (labels right)) then Raise (ValueError "right keys must be sorted")
  else
    let ovl := overlap [] (columns left) (columns right) in
    let fl := suffixed ovl "_x" in
    let fr := suffixed ovl "_y" in
    Ok (Frame (map fl (columns left) ++ map fr (columns right))
              (map (λ lr,
                 (lr.1,
                  map_labels fl lr.2 ++
                  match asof_prior right_by (rows right) lr.1 (row_get left_by lr.2) with
                  | Some ls => map_labels fr ls.2
                  | None => nan_row (map fr (columns right))
                  end)) (rows left))).

(** [df[c] = v] on one row: an existing column is overwritten in place, a
    new one is appended. *)
Fixpoint row_set (c : string) (v : cell) (r : row) : row :=
  match r with
  | [] => [(c, v)]
  | (k, w) :: r' => if decide (k = c) then (k, v) :: r' else (k, w) :: row_set c v r'
  end.

Definition with_column (c : string) (df : frame) : list string :=
  if has_column c df then columns df else columns df ++ [c].

(** [df[new] = df[src].apply(f)] *)
Definition assign_apply (new src : string) (f : cell → result cell) (df : frame)
    : result frame :=
  _ ← require src df;
  rs ← mapM (λ lr,
         match row_get src lr.2 with
         | Some v => w ← f v; Ok (lr.1, row_set new w lr.2)
         | None => Raise (KeyError src)
         end) (rows df);
  Ok (Frame (with_column new df) rs).

(** Subtraction of two cells of float columns; a missing operand gives a
    missing difference. *)
Definition cell_sub (a b : cell) : result cell :=
  match a, b with
  | Str _, _ | _, Str _ => Raise (TypeError "unsupported operand type(s) for -")
  | NaN, _ | _, NaN => Ok NaN
  | Int x, Int y => Ok (Int (x - y))
  | _, _ =>
      match cell_num a, cell_num b with
      | Some p, Some q => Ok (Flt (p - q))
      | _, _ => Ok NaN
      end
  end.

(** [df[new] = df[a] - df[b]] *)
Definition assign_sub (new a b : string) (df : frame) : result frame :=
  _ ← require a df;
  _ ← require b df;
  rs ← mapM (λ lr,
         match row_get a lr.2, row_get b lr.2 with
         | Some x, Some y => w ← cell_sub x y; Ok (lr.1, row_set new w lr.2)
         | None, _ => Raise (KeyError a)
         | _, None => Raise (KeyError b)
         end) (rows df);
  Ok (Frame (with_column new df) rs).

(** Python's [float(s)] on plain decimal literals: an optional sign, digits,
    an optional point and digits.  Other spellings (exponents, [inf],
    [nan], surrounding blanks) are outside the model and are rejected. *)
Definition digit_val (a : Ascii.ascii) : option Z :=
  let n := Z.of_nat (Ascii.nat_of_ascii a) in
  if (48 <=? n) && (n <=? 57) then Some (n - 48) else None.

(** Reads digits up to the end or up to a point: the value so far, the
    number of digits read, and what follows the point. *)
Fixpoint read_digits (s : string) (acc : Z) (cnt : nat) : option (Z * nat * option string) :=
  match s with
  | EmptyString => Some (acc, cnt, None)
  | String a s' =>
      if decide (a = "."%char) then Some (acc, cnt, Some s')
      else match digit_val a with
           | Some d => read_digits s' (acc * 10 + d) (S cnt)
           | None => None
           end
  end.

Definition unsigned_float (s : string) : option Q :=
  match read_digits s 0 0%nat with
  | Some (ip, n, None) => if decide (n = 0%nat) then None else Some (inject_Z ip)
  | Some (ip, n, Some rest) =>
      match read_digits rest ip 0%nat with
      | Some (v, k, None) =>
          if decide ((n + k)%nat = 0%nat) then None
          else Some (Qmake v (Z.to_pos (10 ^ Z.of_nat k)))
      | _ => None
      end
  | None => None
  end.

Definition float_of_str (s : string) : option Q :=
  match s with
  | String "-"%char s' => Qopp <$> unsigned_float s'
  | String "+"%char s' => unsigned_float s'
  | _ => unsigned_float s
  end.

(** [df.astype(float)] *)
Definition to_float (v : cell) : result cell :=
  match v with
  | NaN => Ok NaN
  | Int z => Ok (Flt (inject_Z z))
  | Flt q => Ok (Flt q)
  | Str s =>
      match float_of_str s with
      | Some q => Ok (Flt q)
      | None => Raise (ValueError "could not convert string to float")
      end
  end.

Definition astype_float (df : frame) : result frame :=
  rs ← mapM (λ lr,
         r ← mapM (λ kv, v ← to_float kv.2; Ok (kv.1, v)) lr.2;
         Ok (lr.1, r)) (rows df);
  Ok (Frame (columns df) rs).

(** The order of sort keys and of group keys: missing first, then numbers
    by value, then strings. *)
Definition cell_leb (a b : cell) : bool :=
  match a, b with
  | NaN, _ => true
  | _, NaN => false
  | Str s, Str t => String.leb s t
  | Str _, _ => false
  | _, Str _ => true
  | _, _ =>
      match cell_num a, cell_num b with
      | Some p, Some q => Qle_bool p q
      | _, _ => true
      end
  end.

Fixpoint insert_by {A} (key : A → cell) (x : A) (l : list A) : list A :=
  match l with
  | [] => [x]
  | y :: l' => if cell_leb (key y) (key x) then y :: insert_by key x l' else x :: l
  end.

(** A stable sort by key. *)
Definition sort_by {A} (key : A → cell) (l : list A) : list A :=
  foldr (insert_by key) [] l.

Definition column_cell (c : string) (r : row) : cell :=
  default NaN (row_get c r).

(** [df.sort_values(c)]: a sorted copy. *)
Definition sort_values (c : string) (df : frame) : result frame :=
  _ ← require c df;
  Ok (Frame (columns df) (sort_by (λ lr, column_cell c lr.2) (rows df))).

(** [df.set_index(c)]: a copy labelled by the cells of column [c], which
    leaves the columns.  A cell of any type serves as a label; only an
    absent column raises. *)
Definition set_index (c : string) (df : frame)
    : result (list string * list (cell * row)) :=
  _ ← require c df;
  Ok (List.filter (λ k, negb (bool_decide (k = c))) (columns df),
      map (λ lr, (column_cell c lr.2, row_drop [c] lr.2)) (rows df)).

(** [df.drop_duplicates()]: a copy with the first of equal rows. *)
Fixpoint row_eqb (r s : row) : bool :=
  match r, s with
  | [], [] => true
  | (_, v) :: r', (_, w) :: s' => cell_eqb v w && row_eqb r' s'
  | _, _ => false
  end.

Definition drop_duplicates (df : frame) : frame :=
  Frame (columns df)
        (foldl (λ acc lr,
           if existsb (λ ls, row_eqb ls.2 lr.2) acc then acc else acc ++ [lr])
         [] (rows df)).

(** The arithmetic mean. *)
Definition mean (l : list Q) : Q :=
  foldr Qplus 0%Q l / inject_Z (Z.of_nat (length l)).

(** The values of column [c] over the rows whose [index] cell equals [k],
    missing values skipped. *)
Definition group_values (index c : string) (k : cell) (rs : list (Z * row)) : list Q :=
  omap (λ lr, row_get c lr.2 ≫= cell_num)
       (List.filter (λ lr, key_eqb (Some k) (row_get index lr.2)) rs).

(** The distinct keys of a column, in first-seen order; missing keys form
    no group. *)
Definition distinct_keys (index : string) (rs : list (Z * row)) : list cell :=
  foldl (λ acc lr,
     match row_get index lr.2 with
     | Some k => if is_nan k || existsb (cell_eqb k) acc then acc else acc ++ [k]
     | None => acc
     end) [] rs.

(** [pd.pivot_table(df, values=c, index=[index], aggfunc=np.mean)
      .reset_index()]: one row per group, groups in key order, with the
    group key and the mean of [c] over the group. *)
Definition pivot_mean (c index : string) (df : frame) : result frame :=
  _ ← require c df;
  _ ← require index df;
  if existsb (λ lr, match row_get c lr.2 with Some (Str _) => true | _ => false end) (rows df)
  then Raise (TypeError "no numeric types to aggregate")
  else
    let keys := sort_by id (distinct_keys index (rows df)) in
    Ok (Frame [index; c]
          (reset_index
             (map (λ k, [(index, k); (c, Flt (mean (group_values index c k (rows df))))])
                  keys))).

(** One step of [distinct_keys]. *)
Definition key_step (index : string) (acc : list cell) (lr : Z * row) : list cell :=
  match row_get index lr.2 with
  | Some k => if is_nan k || existsb (cell_eqb k) acc then acc else acc ++ [k]
  | None => acc
  end.

(** At most one key of the list equals a given one. *)
Definition at_most_once (keys : list cell) : Prop :=
  ∀ k, (length (List.filter (cell_eqb k) keys) ≤ 1)%nat.

(** Every row of the frame has cells under exactly the columns of the frame,
    in their order. *)
Definition well_formed (df : frame) : Prop :=
  ∀ lr, lr ∈ rows df → map fst lr.2 = columns df.

(** No cell of the frame is missing, as after [dropna]. *)
Definition no_missing (df : frame) : Prop :=
  ∀ lr, lr ∈ rows df → row_has_nan lr.2 = false.

(** Every row has a key under [index]. *)
Definition keyed (index : string) (df : frame) : Prop :=
  ∀ lr, lr ∈ rows df → ∃ k, row_get index lr.2 = Some k ∧ is_nan k = false.

(** Row [r'] is row [r] after [astype(float)]. *)
Definition cells_to_float (r r' : row) : Prop :=
  Forall2 (λ kv kv', kv'.1 = kv.1 ∧ to_float kv.2 = Ok kv'.2) r r'.

End Pandas.

(** ** The feature pipeline of [main] *)

Module Script.
Import Pandas.

(** [df[c]]: the series under label [c]. *)
Definition series (c : string) (df : frame) : result (list (Z * cell)) :=
  _ ← require c df;
  mapM (λ lr, match row_get c lr.2 with
              | Some v => Ok (lr.1, v)
              | None => Raise (KeyError c)
              end) (rows df).

(** Lines 35-42.  The sorted copy, the copy without duplicates and the copy
    indexed by date are computed and dropped: [df] keeps the row labels that
    [read_csv] gave it. *)
Definition load_games (games : csv) : result frame :=
  let df := read_csv games in
  let df := replace_empty df in
  let df := dropna df in
  let _ := drop_duplicates df in
  _ ← sort_values "GAME_DATE_EST" df;
  _ ← set_index "GAME_DATE_EST" df;
  drop_columns ["GAME_STATUS_TEXT"; "TEAM_ID_home"] df.

(** Lines 44-46. *)
Definition load_teams (teams : csv) : frame :=
  dropna (replace_empty (read_csv teams)).

(** Lines 48-52: again the sorted and the re-indexed copies are dropped. *)
Definition load_ranking (ranking : csv) : result frame :=
  let df_rnk := dropna (replace_empty (read_csv ranking)) in
  _ ← sort_values "STANDINGSDATE" df_rnk;
  _ ← set_index "STANDINGSDATE" df_rnk;
  Ok df_rnk.

Definition TEAM_COLUMNS : list string := ["ARENACAPACITY"; "YEARFOUNDED"; "CONFERENCE"].

(** Lines 58-91: the team attributes, once per side. *)
Definition team_enricher (df df_tm : frame) : result frame :=
  let df_tm := rename [("TEAM_ID", "HOME_TEAM_ID")] df_tm in
  sel ← select ("HOME_TEAM_ID" :: TEAM_COLUMNS) df_tm;
  df ← merge_left "HOME_TEAM_ID" df sel;
  let df := rename [("YEARFOUNDED", "YEARFOUNDED_homeTeam");
                    ("CONFERENCE", "CONFERENCE_homeTeam");
                    ("ARENACAPACITY", "ARENACAPACITY_homeTeam")] df in
  let df_tm := rename [("HOME_TEAM_ID", "VISITOR_TEAM_ID")] df_tm in
  sel ← select ("VISITOR_TEAM_ID" :: TEAM_COLUMNS) df_tm;
  df ← merge_left "VISITOR_TEAM_ID" df sel;
  Ok (rename [("YEARFOUNDED", "YEARFOUNDED_awayTeam");
              ("CONFERENCE", "CONFERENCE_awayTeam");
              ("ARENACAPACITY", "ARENACAPACITY_awayTeam")] df).

(** Lines 97-108. *)
Definition strip_ranking (df_rnk : frame) : result frame :=
  drop_columns ["LEAGUE_ID"; "SEASON_ID"; "CONFERENCE"; "TEAM";
                "HOME_RECORD"; "ROAD_RECORD"] df_rnk.

(** Lines 109-118 and 126-135: the as-of join of one side and the [dropna]
    after it.  Both sides of the join are keyed by their index. *)
Definition asof_join (side team_id : string) (df df_rnk : frame) : result frame :=
  df ← merge_asof_index team_id ("TEAM_ID" +:+ side) df (add_suffix side df_rnk);
  Ok (dropna df).

(** Lines 97-137. *)
Definition standings_joiner (df df_rnk : frame) : result frame :=
  df_rnk ← strip_ranking df_rnk;
  df ← asof_join "_homeTeam" "HOME_TEAM_ID" df df_rnk;
  df ← drop_columns ["TEAM_ID_homeTeam"; "STANDINGSDATE_homeTeam"] df;
  df ← asof_join "_awayTeam" "VISITOR_TEAM_ID" df df_rnk;
  drop_columns ["TEAM_ID_awayTeam"; "STANDINGSDATE_awayTeam"] df.

(** [datetime.fromordinal(datetime(1900, 1, 1).toordinal() + x - 2)] *)
Definition game_day (x : cell) : result Datetime.datetime :=
  match x with
  | Int z =>
      Datetime.fromordinal
        (Datetime.toordinal (Datetime.mk_datetime 1900 1 1) + z - 2)
  | _ => Raise (TypeError "an integer is required")
  end.

(** Line 140: [lambda x: (...).weekday()] *)
Definition weekday_of (x : cell) : result cell :=
  d ← game_day x; Ok (Int (Datetime.weekday d)).

(** Line 147: [lambda x: 0 if x < 5 else 1] *)
Definition weekend_of (x : cell) : result cell :=
  match x with
  | Str _ => Raise (TypeError "'<' not supported")
  | _ =>
      match cell_num x with
      | Some q => Ok (Int (if negb (Qle_bool 5 q) then 0 else 1))
      | None => Ok (Int 1)
      end
  end.

(** Line 150: [lambda x: (...).strftime("%m")] *)
Definition month_of (x : cell) : result cell :=
  d ← game_day x; Ok (Str (Datetime.strftime_m d)).

(** Line 158: [lambda x: 1 if (x <= 6 and x >= 4) else 0] *)
Definition playoff_of (x : cell) : result cell :=
  match x with
  | Str _ => Raise (TypeError "'<=' not supported")
  | _ =>
      match cell_num x with
      | Some q => Ok (Int (if Qle_bool q 6 && Qle_bool 4 q then 1 else 0))
      | None => Ok (Int 0)
      end
  end.

(** Lines 140-160. *)
Definition calendar_featurizer (df : frame) : result frame :=
  df ← assign_apply "WEEKDAY" "GAME_DATE_EST" weekday_of df;
  df ← assign_apply "WEEKEND_GAME" "WEEKDAY" weekend_of df;
  df ← assign_apply "MONTH_NUM" "GAME_DATE_EST" month_of df;
  df ← astype_float df;
  assign_apply "PLAYOFF_GAME" "MONTH_NUM" playoff_of df.

(** One block of lines 169-314: the per-team mean of column [c], merged
    back onto every row of the team under the name [new]. *)
Definition add_hist (c index new : string) (df : frame) : result frame :=
  table ← pivot_mean c index df;
  merge_left index df (rename [(c, new)] table).

(** The blocks in the order of the script: stat, grouping column, new
    column. *)
Definition HIST_HOME : list (string * string) :=
  [("PTS_home", "HIST_PPG_homeTeam");
   ("FG_PCT_home", "HIST_FGpercent_homeTeam");
   ("FT_PCT_home", "HIST_FTpercent_homeTeam");
   ("FG3_PCT_home", "HIST_FG3percent_homeTeam");
   ("AST_home", "HIST_APG_homeTeam");
   ("REB_home", "HIST_REB_homeTeam")].

Definition HIST_AWAY : list (string * string) :=
  [("PTS_away", "HIST_PPG_awayTeam");
   ("FG_PCT_away", "HIST_FGpercent_awayTeam");
   ("FT_PCT_away", "HIST_FTpercent_awayTeam");
   ("FG3_PCT_away", "HIST_FG3percent_awayTeam");
   ("AST_away", "HIST_APG_awayTeam");
   ("REB_away", "HIST_REB_awayTeam")].

Definition add_hists (index : string) (blocks : list (string * string)) (df : frame)
    : result frame :=
  foldl (λ acc b, df ← acc; add_hist b.1 index b.2 df) (Ok df) blocks.

(** Lines 318-337: difference, minuend, subtrahend. *)
Definition DIFFS : list (string * (string * string)) :=
  [("DIFF_HIST_PPG", ("HIST_PPG_homeTeam", "HIST_PPG_awayTeam"));
   ("DIFF_HIST_FG", ("HIST_FGpercent_homeTeam", "HIST_FGpercent_awayTeam"));
   ("DIFF_HIST_FT", ("HIST_FTpercent_homeTeam", "HIST_FTpercent_awayTeam"));
   ("DIFF_HIST_FG3", ("HIST_FG3percent_homeTeam", "HIST_FG3percent_awayTeam"));
   ("DIFF_HIST_APG", ("HIST_APG_homeTeam", "HIST_APG_awayTeam"));
   ("DIFF_HIST_REB", ("HIST_REB_homeTeam", "HIST_REB_awayTeam"))].

Definition add_diffs (df : frame) : result frame :=
  foldl (λ acc d, df ← acc; assign_sub d.1 d.2.1 d.2.2 df) (Ok df) DIFFS.

(** Lines 169-337. *)
Definition historical_aggregator (df : frame) : result frame :=
  df ← add_hists "HOME_TEAM_ID" HIST_HOME df;
  df ← add_hists "TEAM_ID_away" HIST_AWAY df;
  add_diffs df.

(** The label and the box score of the game itself (lines 345-359). *)
Definition LEAKING : list string :=
  ["HOME_TEAM_WINS";
   "PTS_home"; "FG_PCT_home"; "FT_PCT_home"; "FG3_PCT_home"; "AST_home"; "REB_home";
   "PTS_away"; "FG_PCT_away"; "FT_PCT_away"; "FG3_PCT_away"; "AST_away"; "REB_away"].

(** Lines 343-361: the label vector [y] and the feature matrix [X]. *)
Definition leakage_filter (df : frame) : result (frame * list (Z * cell)) :=
  y ← series "HOME_TEAM_WINS" df;
  X ← drop_columns LEAKING df;
  Ok (X, y).

(** The long-run average that row [r] is owed for stat [c]: the mean of
    [c] over all rows of [rs] whose [index] cell equals that of [r]. *)
Definition hist_cell (rs : list (Z * row)) (index c : string) (r : row) : cell :=
  Flt (mean (group_values index c (column_cell index r) rs)).

Definition hist_cells (rs : list (Z * row)) (index : string)
    (blocks : list (string * string)) (r : row) : row :=
  map (λ b, (b.2, hist_cell rs index b.1 r)) blocks.

(** Row [r'] is row [r] after the assignments of the differences [ds], in
    order. *)
Fixpoint subtracted (ds : list (string * (string * string))) (r r' : row) : Prop :=
  match ds with
  | [] => r' = r
  | d :: ds' =>
      ∃ x y w, row_get d.2.1 r = Some x ∧ row_get d.2.2 r = Some y
               ∧ cell_sub x y = Ok w ∧ subtracted ds' (row_set d.1 w r) r'
  end.

(** What the blocks and the differences of the script make of a row [lr]
    of the table with rows [rs], block by block. *)
Definition historical_blocks (rs : list (Z * row)) (lr lr' : Z * row) : Prop :=
  (∀ c v, c ∉ map fst DIFFS → row_get c lr.2 = Some v → row_get c lr'.2 = Some v)
  ∧ (∀ b, b ∈ HIST_HOME →
       row_get b.2 lr'.2 = Some (hist_cell rs "HOME_TEAM_ID" b.1 lr.2))
  ∧ (∀ b, b ∈ HIST_AWAY →
       row_get b.2 lr'.2 = Some (hist_cell rs "TEAM_ID_away" b.1 lr.2))
  ∧ (∀ d, d ∈ DIFFS →
       ∃ x y, row_get d.2.1 lr'.2 = Some (Flt x) ∧ row_get d.2.2 lr'.2 = Some (Flt y)
              ∧ row_get d.1 lr'.2 = Some (Flt (x - y))).

(** The cell of row [lr'] under [label] is the mean of [stat] over the
    rows of [rs] that have the team of row [lr] under [index]. *)
Definition hist_is (rs : list (Z * row)) (lr lr' : Z * row)
    (label index stat : string) : Prop :=
  row_get label lr'.2 = Some (hist_cell rs index stat lr.2).

(** The cell of row [lr'] under [diff] is its cell under [home] minus its
    cell under [away]. *)
Definition diff_is (lr' : Z * row) (diff home away : string) : Prop :=
  ∃ x y, row_get home lr'.2 = Some (Flt x) ∧ row_get away lr'.2 = Some (Flt y)
         ∧ row_get diff lr'.2 = Some (Flt (x - y)).

(** What the historical step owes a row [lr] of the table with rows [rs]:
    the cells that came in stay (a column named like a difference apart);
    the six [HIST_*] cells of the home side are the means of points,
    field-goal, free-throw and three-point percentage, assists and
    rebounds of the home side over the rows of the same home team; the six
    of the away side are the means of the away stats over the rows of the
    same away team; each [DIFF_HIST_*] cell is the home [HIST_*] cell
    minus the away one. *)
Definition historical_of (rs : list (Z * row)) (lr lr' : Z * row) : Prop :=
  (∀ c v, c ∉ ["DIFF_HIST_PPG"; "DIFF_HIST_FG"; "DIFF_HIST_FT"; "DIFF_HIST_FG3";
               "DIFF_HIST_APG"; "DIFF_HIST_REB"] →
          row_get c lr.2 = Some v → row_get c lr'.2 = Some v)
  ∧ (hist_is rs lr lr' "HIST_PPG_homeTeam" "HOME_TEAM_ID" "PTS_home"
     ∧ hist_is rs lr lr' "HIST_FGpercent_homeTeam" "HOME_TEAM_ID" "FG_PCT_home"
     ∧ hist_is rs lr lr' "HIST_FTpercent_homeTeam" "HOME_TEAM_ID" "FT_PCT_home"
     ∧ hist_is rs lr lr' "HIST_FG3percent_homeTeam" "HOME_TEAM_ID" "FG3_PCT_home"
     ∧ hist_is rs lr lr' "HIST_APG_homeTeam" "HOME_TEAM_ID" "AST_home"
     ∧ hist_is rs lr lr' "HIST_REB_homeTeam" "HOME_TEAM_ID" "REB_home")
  ∧ (hist_is rs lr lr' "HIST_PPG_awayTeam" "TEAM_ID_away" "PTS_away"
     ∧ hist_is rs lr lr' "HIST_FGpercent_awayTeam" "TEAM_ID_away" "FG_PCT_away"
     ∧ hist_is rs lr lr' "HIST_FTpercent_awayTeam" "TEAM_ID_away" "FT_PCT_away"
     ∧ hist_is rs lr lr' "HIST_FG3percent_awayTeam" "TEAM_ID_away" "FG3_PCT_away"
     ∧ hist_is rs lr lr' "HIST_APG_awayTeam" "TEAM_ID_away" "AST_away"
     ∧ hist_is rs lr lr' "HIST_REB_awayTeam" "TEAM_ID_away" "REB_away")
  ∧ (diff_is lr' "DIFF_HIST_PPG" "HIST_PPG_homeTeam" "HIST_PPG_awayTeam"
     ∧ diff_is lr' "DIFF_HIST_FG" "HIST_FGpercent_homeTeam" "HIST_FGpercent_awayTeam"
     ∧ diff_is lr' "DIFF_HIST_FT" "HIST_FTpercent_homeTeam" "HIST_FTpercent_awayTeam"
     ∧ diff_is lr' "DIFF_HIST_FG3" "HIST_FG3percent_homeTeam" "HIST_FG3percent_awayTeam"
     ∧ diff_is lr' "DIFF_HIST_APG" "HIST_APG_homeTeam" "HIST_APG_awayTeam"
     ∧ diff_is lr' "DIFF_HIST_REB" "HIST_REB_homeTeam" "HIST_REB_awayTeam").

(** What the four calendar cells of a row are, given the row [lr] that
    came in: with [x] its integer game date, the date is day [693594 + x]
    of the proleptic Gregorian calendar (day 1 is Monday 0001-01-01). *)
Definition calendar_of (lr lr' : Z * row) : Prop :=
  lr'.1 = lr.1 ∧
  ∃ x d,
    row_get "GAME_DATE_EST" lr.2 = Some (Int x) ∧
    Datetime.fromordinal (693594 + x) = Ok d ∧
    let w := (693594 + x + 6) mod 7 in
    let m := Datetime.month d in
    0 ≤ w ≤ 6 ∧ 1 ≤ m ≤ 12 ∧
    row_get "WEEKDAY" lr'.2 = Some (Flt (inject_Z w)) ∧
    row_get "WEEKEND_GAME" lr'.2 = Some (Flt (inject_Z (if 5 <=? w then 1 else 0))) ∧
    row_get "MONTH_NUM" lr'.2 = Some (Flt (inject_Z m)) ∧
    row_get "PLAYOFF_GAME" lr'.2
      = Some (Int (if (4 <=? m) && (m <=? 6) then 1 else 0)).

(** Lines 35-361. *)
Definition features (games teams ranking : csv) : result (frame * list (Z * cell)) :=
  df ← load_games games;
  let df_tm := load_teams teams in
  df_rnk ← load_ranking ranking;
  df ← team_enricher df df_tm;
  df ← standings_joiner df df_rnk;
  df ← calendar_featurizer df;
  df ← historical_aggregator df;
  leakage_filter df.

End Script.

(** ** Estimators, the panel, the selection and the report *)

Module Learn.
Import Pandas.

(** The classes of the panel (lines 14-29 import them, lines 365-382 build
    one instance of each). *)
Inductive family : Type :=
  | ExtraTreeClassifier
  | DecisionTreeClassifier
  | MLPClassifier
  | KNeighborsClassifier
  | AdaBoostClassifier
  | GradientBoostingClassifier
  | BaggingClassifier
  | RandomForestClassifier
  | BernoulliNB
  | GaussianNB
  | LinearDiscriminantAnalysis
  | LogisticRegression
  | LogisticRegressionCV
  | NuSVC
  | SVC
  | XGBClassifier.

(** [cls.__class__.__name__] *)
Definition class_name (f : family) : string :=
  match f with
  | ExtraTreeClassifier => "ExtraTreeClassifier"
  | DecisionTreeClassifier => "DecisionTreeClassifier"
  | MLPClassifier => "MLPClassifier"
  | KNeighborsClassifier => "KNeighborsClassifier"
  | AdaBoostClassifier => "AdaBoostClassifier"
  | GradientBoostingClassifier => "GradientBoostingClassifier"
  | BaggingClassifier => "BaggingClassifier"
  | RandomForestClassifier => "RandomForestClassifier"
  | BernoulliNB => "BernoulliNB"
  | GaussianNB => "GaussianNB"
  | LinearDiscriminantAnalysis => "LinearDiscriminantAnalysis"
  | LogisticRegression => "LogisticRegression"
  | LogisticRegressionCV => "LogisticRegressionCV"
  | NuSVC => "NuSVC"
  | SVC => "SVC"
  | XGBClassifier => "XGBClassifier"
  end.

Definition FAMILIES : list family :=
  [ExtraTreeClassifier; DecisionTreeClassifier; MLPClassifier;
   KNeighborsClassifier; AdaBoostClassifier; GradientBoostingClassifier;
   BaggingClassifier; RandomForestClassifier; BernoulliNB; GaussianNB;
   LinearDiscriminantAnalysis; LogisticRegression; LogisticRegressionCV;
   NuSVC; SVC; XGBClassifier].

(** The classifier classes among the global names of the module: what
    [eval] resolves a class name to. *)
Definition GLOBALS : gmap string family :=
  list_to_map (map (λ f, (class_name f, f)) FAMILIES).

(** The constructor arguments the script ever passes; [defaults] is a call
    without arguments. *)
Record params : Type := Params { random_state : option Z; probability : bool }.

Definition defaults : params := Params None false.

(** Lines 365-382. *)
Definition PANEL : list (family * params) :=
  [(ExtraTreeClassifier, Params (Some 2408) false);
   (DecisionTreeClassifier, Params (Some 2408) false);
   (MLPClassifier, defaults);
   (KNeighborsClassifier, defaults);
   (AdaBoostClassifier, defaults);
   (GradientBoostingClassifier, defaults);
   (BaggingClassifier, defaults);
   (RandomForestClassifier, Params (Some 2408) false);
   (BernoulliNB, defaults);
   (GaussianNB, defaults);
   (LinearDiscriminantAnalysis, defaults);
   (LogisticRegression, defaults);
   (LogisticRegressionCV, defaults);
   (NuSVC, Params None true);
   (SVC, Params None true);
   (XGBClassifier, defaults)].

(** Which instances have [predict_proba]: the two support-vector classes
    only when built with [probability=True]. *)
Definition has_predict_proba (f : family) (p : params) : bool :=
  match f with
  | NuSVC | SVC => probability p
  | _ => true
  end.

(** Which classes have the attribute [feature_importances_]. *)
Definition has_feature_importances (f : family) : bool :=
  match f with
  | ExtraTreeClassifier | DecisionTreeClassifier | AdaBoostClassifier
  | GradientBoostingClassifier | RandomForestClassifier | XGBClassifier => true
  | _ => false
  end.

(** What the script needs of scikit-learn, xgboost and numpy.  The learning
    algorithms themselves are not part of the script: they are a parameter
    of the model.  A fit draws from a random generator and leaves it in a
    new state. *)
Record sklearn : Type := Sklearn {
  rng : Type;
  model : Type;
  RandomState : Z → rng;
  permutation : rng → nat → list nat;
  fit : family → params → rng → frame → list (Z * cell) → result model * rng;
  predict : model → frame → list cell;
  predict_proba : model → frame → list Q;
  feature_importances : model → list Q;
  roc_curve : list (Z * cell) → list Q → result (list Q * list Q);
  roc_auc_score : list (Z * cell) → list Q → result cell;
  accuracy_score : list (Z * cell) → list cell → Q
}.

(** An estimator object: its class, its constructor arguments and, once
    fitted, what it learnt. *)
Record estimator (sk : sklearn) : Type := Estimator {
  est_family : family;
  est_params : params;
  est_model : option (model sk)
}.
Arguments Estimator {sk} _ _ _.
Arguments est_family {sk} _.
Arguments est_params {sk} _.
Arguments est_model {sk} _.

(** The one split of line 362. *)
Record split : Type := Split {
  X_train : frame; X_test : frame;
  y_train : list (Z * cell); y_test : list (Z * cell)
}.

(** What a run does that can be seen from outside, in order: the objects
    it builds, its calls of [fit], and what it shows, prints and saves. *)
Inductive event : Type :=
  | EvNew (ref : nat) (f : family) (p : params)
  | EvFit (ref : nat) (X : frame) (y : list (Z * cell))
  | EvBarChart (bars : list (string * cell))
  | EvBanner
  | EvAccuracy (acc : Q)
  | EvImportanceHeader
  | EvImportances (imp : list (string * Q))
  | EvRocChart (fpr tpr : list Q) (auc : cell)
  | EvImportanceChart (indices : list nat) (importances : list Q)
  | EvPickle (ref : nat).

(** One row of [result_table].  The table is created with the columns
    [classifiers], [fpr], [tpr], [auc]; the rows appended to it bring
    [Classifiers] and [AUC], so the two lower-case columns stay empty. *)
Record evaluation : Type := Evaluation {
  classifiers : cell;
  fpr : list Q;
  tpr : list Q;
  auc : cell;
  Classifiers : string;
  AUC : cell
}.

(** [Series.idxmax()]: the position of the first greatest value, missing
    values skipped; [None] stands for the missing label that it returns
    when every value is missing. *)
Fixpoint argmax_from (best : option (nat * Q)) (i : nat) (col : list cell)
    : option (nat * Q) :=
  match col with
  | [] => best
  | c :: col' =>
      let best' :=
        match cell_num c, best with
        | Some q, Some (_, b) => if negb (Qle_bool q b) then Some (i, q) else best
        | Some q, None => Some (i, q)
        | None, _ => best
        end in
      argmax_from best' (S i) col'
  end.

Definition idxmax (col : list cell) : result (option nat) :=
  match col with
  | [] => Raise (ValueError "attempt to get argmax of an empty sequence")
  | _ => Ok (fst <$> argmax_from None 0%nat col)
  end.

(** Lines 419-421: the name in the row of the greatest AUC. *)
Definition select_winner (result_table : list evaluation) : result string :=
  max_index ← idxmax (map AUC result_table);
  match max_index with
  | None => Raise (KeyError "nan")
  | Some i =>
      match result_table !! i with
      | Some e => Ok (Classifiers e)
      | None => Raise (KeyError "max_index")
      end
  end.

(** [X.iloc[positions]] and [y.iloc[positions]] *)
Definition iloc {A} (positions : list nat) (l : list A) : list A :=
  omap (λ i, l !! i) positions.

(** Line 362: [train_test_split(X, y, test_size=0.3, random_state=2424)].
    The test part has [ceil(0.3 n)] rows, the first ones of a permutation
    drawn from a generator seeded with 2424; the rest is the training
    part. *)
Definition train_test_split (sk : sklearn) (X : frame) (y : list (Z * cell))
    : result split :=
  let n := length (rows X) in
  let n_test := Z.to_nat ((3 * Z.of_nat n + 9) / 10) in
  let n_train := (n - n_test)%nat in
  if decide (n_train = 0%nat) then
    Raise (ValueError "the resulting train set will be empty")
  else
    let p := permutation sk (RandomState sk 2424) n in
    let ind_test := take n_test p in
    let ind_train := take n_train (drop n_test p) in
    Ok (Split (Frame (columns X) (iloc ind_train (rows X)))
              (Frame (columns X) (iloc ind_test (rows X)))
              (iloc ind_train y) (iloc ind_test y)).

Section Run.
Context (sk : sklearn).

(** The state of a run: the estimator objects built so far (a reference
    to an object is its position), numpy's global random generator, and
    the events so far. *)
Record world : Type := World {
  heap : list (estimator sk);
  np_random : rng sk;
  trace : list event
}.

(** A step of the run: it reads and changes the state, and returns or
    raises. *)
Definition M (A : Type) : Type := world → result A * world.

#[local] Instance M_ret : MRet M := λ A a w, (Ok a, w).
#[local] Instance M_bind : MBind M :=
  λ A B f m w, match m w with
               | (Ok a, w') => f a w'
               | (Raise e, w') => (Raise e, w')
               end.

Definition raise {A} (e : exn) : M A := λ w, (Raise e, w).

Definition lift {A} (r : result A) : M A := λ w, (r, w).

Definition emit (ev : event) : M unit :=
  λ w, (Ok (), World (heap w) (np_random w) (trace w ++ [ev])).

Definition deref (ref : nat) : M (estimator sk) :=
  λ w, match heap w !! ref with
       | Some o => (Ok o, w)
       | None => (Raise (NameError "no such object"), w)
       end.

Definition store (ref : nat) (o : estimator sk) : M unit :=
  λ w, (Ok (), World (<[ref := o]> (heap w)) (np_random w) (trace w)).

(** A constructor call: a new, unfitted object. *)
Definition construct (f : family) (p : params) : M nat :=
  λ w, let ref := length (heap w) in
       (Ok ref, World (heap w ++ [Estimator f p None]) (np_random w)
                      (trace w ++ [EvNew ref f p])).

(** The learning inside [fit]: an estimator built with an integer
    [random_state] draws from a generator of its own seeded with it; one
    built without draws from numpy's global generator and advances it. *)
Definition learn (o : estimator sk) (X : frame) (y : list (Z * cell)) : M (model sk) :=
  λ w, match random_state (est_params o) with
       | Some seed =>
           ((fit sk (est_family o) (est_params o) (RandomState sk seed) X y).1, w)
       | None =>
           let r := fit sk (est_family o) (est_params o) (np_random w) X y in
           (r.1, World (heap w) r.2 (trace w))
       end.

(** [obj.fit(X, y)]: the object itself becomes fitted. *)
Definition fit_object (ref : nat) (X : frame) (y : list (Z * cell)) : M unit :=
  o ← deref ref;
  _ ← emit (EvFit ref X y);
  m ← learn o X y;
  store ref (Estimator (est_family o) (est_params o) (Some m)).

Definition fitted_model (o : estimator sk) : M (model sk) :=
  match est_model o with
  | Some m => mret m
  | None => raise (ValueError "this instance is not fitted yet")
  end.

(** [obj.predict(X)] *)
Definition predict_object (ref : nat) (X : frame) : M (list cell) :=
  o ← deref ref;
  m ← fitted_model o;
  mret (predict sk m X).

(** [obj.predict_proba(X)[::, 1]] *)
Definition predict_proba_object (ref : nat) (X : frame) : M (list Q) :=
  o ← deref ref;
  if has_predict_proba (est_family o) (est_params o) then
    m ← fitted_model o;
    mret (predict_proba sk m X)
  else raise (AttributeError "predict_proba").

(** [obj.feature_importances_] *)
Definition feature_importances_object (ref : nat) : M (list Q) :=
  o ← deref ref;
  if has_feature_importances (est_family o) then
    m ← fitted_model o;
    mret (feature_importances sk m)
  else raise (AttributeError "feature_importances_").

(** Lines 387-399: the body of the panel loop.  [model] is the object
    [cls] itself, fitted. *)
Definition evaluate (sp : split) (cls : nat) : M evaluation :=
  _ ← fit_object cls (X_train sp) (y_train sp);
  yproba ← predict_proba_object cls (X_test sp);
  curve ← lift (roc_curve sk (y_test sp) yproba);
  a ← lift (roc_auc_score sk (y_test sp) yproba);
  o ← deref cls;
  mret (Evaluation NaN curve.1 curve.2 NaN (class_name (est_family o)) a).

(** Lines 386-399. *)
Fixpoint panel_loop (sp : split) (classifiers : list nat)
    (result_table : list evaluation) : M (list evaluation) :=
  match classifiers with
  | [] => mret result_table
  | cls :: rest =>
      e ← evaluate sp cls;
      panel_loop sp rest (result_table ++ [e])
  end.

(** Lines 365-382: the instances of the panel, built in order. *)
Fixpoint construct_all (panel : list (family * params)) : M (list nat) :=
  match panel with
  | [] => mret []
  | fp :: rest =>
      ref ← construct fp.1 fp.2;
      refs ← construct_all rest;
      mret (ref :: refs)
  end.

(** Lines 362-421: the split, the panel, the bar chart and the name of
    the winner. *)
Definition model_selection (X : frame) (y : list (Z * cell)) : M (split * string) :=
  sp ← lift (train_test_split sk X y);
  classifiers ← construct_all PANEL;
  result_table ← panel_loop sp classifiers [];
  _ ← emit (EvBarChart (map (λ e, (Classifiers e, AUC e)) result_table));
  final ← lift (select_winner result_table);
  mret (sp, final).

(** [eval(final)]: the class that the name is bound to. *)
Definition eval_class (name : string) : M family :=
  match GLOBALS !! name with
  | Some f => mret f
  | None => raise (NameError name)
  end.

(** Line 424: [final = eval(final)()]. *)
Definition rebuild (name : string) : M nat :=
  f ← eval_class name;
  construct f defaults.

Fixpoint insert_desc {A} (x : A * Q) (l : list (A * Q)) : list (A * Q) :=
  match l with
  | [] => [x]
  | y :: l' => if Qle_bool x.2 y.2 then y :: insert_desc x l' else x :: l
  end.

(** Greatest score first. *)
Definition sort_desc {A} (l : list (A * Q)) : list (A * Q) :=
  foldr insert_desc [] l.

(** [pd.Series(scores, index=names).sort_values(ascending=False)] *)
Definition ranked (names : list string) (scores : list Q) : result (list (string * Q)) :=
  if decide (length names = length scores) then Ok (sort_desc (zip names scores))
  else Raise (ValueError "length of values does not match length of index").

(** [np.argsort(scores)[::-1]] *)
Definition argsort_desc (scores : list Q) : list nat :=
  map fst (sort_desc (imap (λ i q, (i, q)) scores)).

(** Lines 426-493: the report on the fitted object [final]. *)
Definition report (sp : split) (features : list string) (final : nat) : M unit :=
  y_pred ← predict_object final (X_test sp);
  y_score ← predict_proba_object final (X_test sp);
  _ ← emit EvBanner;
  _ ← emit (EvAccuracy (accuracy_score sk (y_test sp) y_pred));
  scores ← feature_importances_object final;
  imp ← lift (ranked features scores);
  _ ← emit EvImportanceHeader;
  _ ← emit (EvImportances imp);
  curve ← lift (roc_curve sk (y_test sp) y_score);
  auc2 ← lift (roc_auc_score sk (y_test sp) y_score);
  _ ← emit (EvRocChart curve.1 curve.2 auc2);
  importances ← feature_importances_object final;
  _ ← emit (EvImportanceChart (argsort_desc importances) importances);
  emit (EvPickle final).

(** Lines 424-493: the winner is rebuilt from its name, fitted on the
    training part of the split and reported on. *)
Definition explain (sp : split) (features : list string) (name : string) : M unit :=
  final ← rebuild name;
  _ ← fit_object final (X_train sp) (y_train sp);
  report sp features final.

(** Lines 362-493. *)
Definition select_and_report (X : frame) (y : list (Z * cell)) : M unit :=
  sel ← model_selection X y;
  explain sel.1 (columns X) sel.2.

(** A process starts without objects and with a global generator seeded
    by the operating system. *)
Definition start (entropy : rng sk) : world := World [] entropy [].

(** [main]. *)
Definition main (games teams ranking : csv) (entropy : rng sk) : result unit * world :=
  match Script.features games teams ranking with
  | Ok Xy => select_and_report Xy.1 Xy.2 (start entropy)
  | Raise e => (Raise e, start entropy)
  end.

End Run.

Arguments heap {sk} _.
Arguments np_random {sk} _.
Arguments trace {sk} _.
Arguments World {sk} _ _ _.

End Learn.

(** ** Sample inputs *)

Module Samples.
Import Pandas Learn.

(** One game on 2015-03-01. *)
Definition sunday_game : frame :=
  Frame ["GAME_DATE_EST"] [(0, [("GAME_DATE_EST", Int 42064)])].

(** Four games between teams 1 and 2, as [games.csv] would hold them.  The
    first is played on 2015-07-15, the next two on 2015-03-01 and the last
    on 2015-03-02. *)
Definition GAMES_HEADER : list string :=
  ["GAME_DATE_EST"; "GAME_STATUS_TEXT"; "HOME_TEAM_ID"; "VISITOR_TEAM_ID";
   "TEAM_ID_home"; "PTS_home"; "FG_PCT_home"; "FT_PCT_home"; "FG3_PCT_home";
   "AST_home"; "REB_home"; "TEAM_ID_away"; "PTS_away"; "FG_PCT_away";
   "FT_PCT_away"; "FG3_PCT_away"; "AST_away"; "REB_away"; "HOME_TEAM_WINS"].

Definition game (date home away pts wins : Z) : list cell :=
  [Int date; Str "Final"; Int home; Int away;
   Int home; Int pts; Flt (1 # 2); Flt (3 # 4); Flt (1 # 3); Int 20; Int 40;
   Int away; Int (pts - 5); Flt (2 # 5); Flt (7 # 10); Flt (3 # 10); Int 18; Int 38;
   Int wins].

Definition games : csv :=
  Csv GAMES_HEADER
      [game 42200 1 2 100 1; game 42064 1 2 90 1; game 42064 1 2 110 1;
       game 42065 2 1 95 0].

Definition teams : csv :=
  Csv ["TEAM_ID"; "ARENACAPACITY"; "YEARFOUNDED"; "CONFERENCE"]
      [[Int 1; Int 18000; Int 1949; Int 1]; [Int 2; Int 19000; Int 1946; Int 0]].

Definition RANKING_HEADER : list string :=
  ["TEAM_ID"; "LEAGUE_ID"; "SEASON_ID"; "STANDINGSDATE"; "CONFERENCE"; "TEAM";
   "G"; "W"; "L"; "W_PCT"; "HOME_RECORD"; "ROAD_RECORD"].

Definition standing (team date g w : Z) : list cell :=
  [Int team; Int 0; Int 22014; Int date; Str "East"; Str "Team";
   Int g; Int w; Int (g - w); Flt (w # Z.to_pos g); Str "1-0"; Str "0-1"].

(** The standings of both teams on 2015-04-06, as [ranking.csv] would hold
    them. *)
Definition ranking : csv :=
  Csv RANKING_HEADER [standing 1 42100 10 9; standing 2 42100 10 1].

(** A stand-in for scikit-learn, to run the harness on.  A generator is an
    integer; a fit fails for the families in [failing] and otherwise learns
    the family, the generator it drew from and the number of features; the
    multilayer perceptron scores every row by what it drew, the others
    score one half; the AUC is the first score; every feature is equally
    important. *)
Definition toy (failing : list family) : sklearn :=
  Sklearn Z (family * Z * nat)
    (λ seed, seed)
    (λ _ n, seq 0 n)
    (λ f _ g X _,
       (if existsb (λ f', bool_decide (class_name f' = class_name f)) failing
        then Raise (ValueError "fit failed")
        else Ok (f, g, length (columns X)), g + 1))
    (λ _ X, map (λ _, Int 1) (rows X))
    (λ m X, map (λ _, match m.1.1 with
                      | MLPClassifier => inject_Z m.1.2 / 10
                      | _ => 1 # 2
                      end)%Q (rows X))
    (λ m, repeat 1%Q m.2)
    (λ _ _, Ok ([0; 1], [0; 1])%Q)
    (λ _ scores, Ok (match scores with q :: _ => Flt q | [] => NaN end))
    (λ _ _, 1%Q).

(** A longer table of games: the four above, a fifth won by team 1 at home
    and a sixth with other shooting figures, as they reach the historical
    step: three home games of team 1, one of team 2. *)
Definition season_games : csv :=
  Csv GAMES_HEADER
      (records games
       ++ [game 42066 1 2 120 1;
           [Int 42067; Str "Final"; Int 1; Int 2;
            Int 1; Int 101; Flt (2 # 5); Flt (4 # 5); Flt (1 # 4); Int 25; Int 44;
            Int 2; Int 99; Flt (1 # 2); Flt (3 # 5); Flt (2 # 5); Int 21; Int 35;
            Int 1]]).

Definition season : frame :=
  Eval vm_compute in
    match df ← Script.load_games season_games;
          df_rnk ← Script.load_ranking ranking;
          df ← Script.team_enricher df (Script.load_teams teams);
          df ← Script.standings_joiner df df_rnk;
          Script.calendar_featurizer df with
    | Ok df => df
    | Raise _ => Frame [] []
    end.

(** The feature matrix and the labels of the sample tables, and their
    split. *)
Definition X : frame :=
  Eval vm_compute in
    match Script.features games teams ranking with
    | Ok Xy => Xy.1
    | Raise _ => Frame [] []
    end.

Definition y : list (Z * cell) :=
  Eval vm_compute in
    match Script.features games teams ranking with
    | Ok Xy => Xy.2
    | Raise _ => []
    end.

Definition the_split : split :=
  Eval vm_compute in
    match train_test_split (toy []) X y with
    | Ok sp => sp
    | Raise _ => Split (Frame [] []) (Frame [] []) [] []
    end.

(** A process in which the scikit-learn of [toy failing] has just built
    the panel. *)
Definition built (failing : list family) : world (toy failing) :=
  (construct_all (toy failing) PANEL (start (toy failing) 0)).2.

End Samples.


(** The game table and the standings table of the samples as the
    standings join receives them, and the date columns of a joined table:
    per row its label, the date of the game and the date of the standings
    joined to the home side. *)
Module JoinSample.
Import Pandas Script.

Definition df : result frame :=
  df ← load_games Samples.games; team_enricher df (load_teams Samples.teams).

Definition df_rnk : result frame :=
  df_rnk ← load_ranking Samples.ranking; strip_ranking df_rnk.

Definition home_joined : result frame :=
  df ← df; df_rnk ← df_rnk; asof_join "_homeTeam" "HOME_TEAM_ID" df df_rnk.

Definition joined : result frame :=
  df ← df; df_rnk ← load_ranking Samples.ranking; standings_joiner df df_rnk.

Definition dates (df : frame) : list (Z * option cell * option cell) :=
  map (λ lr, (lr.1, row_get "GAME_DATE_EST" lr.2,
              row_get "STANDINGSDATE_homeTeam" lr.2)) (rows df).

Definition win_pct (df : frame) : list (Z * option cell * option cell) :=
  map (λ lr, (lr.1, row_get "W_PCT_homeTeam" lr.2,
              row_get "W_PCT_awayTeam" lr.2)) (rows df).

End JoinSample.

(** ** What a run of the harness leaves behind *)

Import Pandas Script Learn.

(** [q] is the first greatest number of the column, at position [j]. *)
Definition first_max (col : list cell) (j : nat) (q : Q) : Prop :=
  (∃ c, col !! j = Some c ∧ cell_num c = Some q)
  ∧ (∀ k c b, col !! k = Some c → cell_num c = Some b → (b <= q)%Q)
  ∧ (∀ k c b, (k < j)%nat → col !! k = Some c → cell_num c = Some b → (b < q)%Q).

Definition argmax_ok (col : list cell) (res : option (nat * Q)) : Prop :=
  match res with
  | None => ∀ k c, col !! k = Some c → cell_num c = None
  | Some (j, q) => first_max col j q
  end.

(** The classes of the objects of a state, by reference. *)
Definition families {sk} (w : world sk) : list family := map est_family (heap w).

(** The arguments the objects of a state were built with, by reference. *)
Definition arguments {sk} (w : world sk) : list params := map est_params (heap w).

(** The calls of [fit] of a panel loop over the objects [refs]. *)
Definition panel_fits (sp : split) (refs : list nat) : list event :=
  map (λ ref, EvFit ref (X_train sp) (y_train sp)) refs.

(** The events of building the panel after [n] objects. *)
Definition panel_news (n : nat) : list event :=
  imap (λ i fp, EvNew (n + i) fp.1 fp.2) PANEL.

Definition bars (result_table : list evaluation) : list (string * cell) :=
  map (λ e, (Classifiers e, AUC e)) result_table.

(** What a run shows, prints or saves, as against what it builds and
    fits. *)
Definition is_output (ev : event) : bool :=
  match ev with
  | EvNew _ _ _ | EvFit _ _ _ => false
  | _ => true
  end.

(** The outputs that tell of feature importances, and those after them. *)
Definition is_late_output (ev : event) : bool :=
  match ev with
  | EvImportanceHeader | EvImportances _ | EvRocChart _ _ _
  | EvImportanceChart _ _ | EvPickle _ => true
  | _ => false
  end.

(** The class of an exception, which is what an [except] clause tells
    exceptions apart by. *)
Definition exn_class (e : exn) : string :=
  match e with
  | KeyError _ => "KeyError"
  | ValueError _ => "ValueError"
  | TypeError _ => "TypeError"
  | NameError _ => "NameError"
  | AttributeError _ => "AttributeError"
  end.

(** The value that a result holds, or [d] when it raises. *)
Definition ok_or {A} (d : A) (r : result A) : A :=
  match r with Ok x => x | Raise _ => d end.

(** The call of [fit] that an event records, if it is one. *)
Definition fit_of (ev : event) : option (nat * frame * list (Z * cell)) :=
  match ev with
  | EvFit ref X y => Some (ref, X, y)
  | _ => None
  end.

(** * Properties *)

Import Pandas Script Learn.

(** ** The error monad and lists *)

Lemma bind_Ok {A B} (m : result A) (f : A → result B) (b : B) :
  m ≫= f = Ok b → ∃ a, m = Ok a ∧ f a = Ok b.
Proof. destruct m as [a|e]; simpl; [eauto | discriminate]. Qed.

Lemma mapM_Ok {A B} (f : A → result B) (l : list A) (k : list B) :
  mapM f l = Ok k → Forall2 (λ x y, f x = Ok y) l k.
Proof.
  revert k. induction l as [|x l IH]; intros k H; simpl in H.
  - injection H as <-. constructor.
  - apply bind_Ok in H as (y & Hy & H). apply bind_Ok in H as (k' & Hk & H).
    injection H as <-. constructor; auto.
Qed.

Lemma Forall2_compose {A B C} (P : A → B → Prop) (Q : B → C → Prop) l k m :
  Forall2 P l k → Forall2 Q k m → Forall2 (λ x z, ∃ y, P x y ∧ Q y z) l m.
Proof.
  intros H. revert m. induction H; intros m Hm; inversion Hm; subst;
    constructor; eauto.
Qed.

(** ** Rows and frames *)

Lemma row_get_set_eq c v r : row_get c (row_set c v r) = Some v.
Proof.
  induction r as [|[k w] r IH]; simpl.
  - by rewrite decide_True.
  - destruct (decide (k = c)) as [->|Hne]; simpl.
    + by rewrite decide_True.
    + by rewrite decide_False.
Qed.

Lemma row_get_set_ne c c' v r : c ≠ c' → row_get c' (row_set c v r) = row_get c' r.
Proof.
  intros Hne. induction r as [|[k w] r IH]; simpl.
  - by rewrite decide_False.
  - destruct (decide (k = c)) as [->|Hk]; simpl.
    + by rewrite !decide_False.
    + destruct (decide (k = c')); auto.
Qed.

Lemma require_Ok c df : require c df = Ok () ↔ c ∈ columns df.
Proof.
  unfold require, has_column. case_bool_decide; split; try done.
Qed.

Lemma assign_apply_Ok new src f df df' :
  assign_apply new src f df = Ok df' →
  columns df' = with_column new df ∧
  Forall2 (λ lr lr', ∃ v w, row_get src lr.2 = Some v ∧ f v = Ok w
                            ∧ lr' = (lr.1, row_set new w lr.2))
          (rows df) (rows df').
Proof.
  unfold assign_apply. intros H.
  apply bind_Ok in H as ([] & _ & H). apply bind_Ok in H as (rs & Hrs & H).
  injection H as <-. split; [done|]. simpl.
  apply mapM_Ok in Hrs. eapply Forall2_impl; [exact Hrs|].
  intros [l r] lr' Hlr; simpl in *.
  destruct (row_get src r) as [v|]; [|discriminate].
  apply bind_Ok in Hlr as (w & Hw & Hlr). injection Hlr as <-. eauto.
Qed.

Lemma astype_float_Ok df df' :
  astype_float df = Ok df' →
  columns df' = columns df ∧
  Forall2 (λ lr lr', lr'.1 = lr.1 ∧ cells_to_float lr.2 lr'.2) (rows df) (rows df').
Proof.
  unfold astype_float. intros H. apply bind_Ok in H as (rs & Hrs & H).
  injection H as <-. split; [done|]. simpl.
  apply mapM_Ok in Hrs. eapply Forall2_impl; [exact Hrs|].
  intros [l r] lr' Hlr; simpl in *.
  apply bind_Ok in Hlr as (r' & Hr' & Hlr). injection Hlr as <-. split; [done|].
  apply mapM_Ok in Hr'. eapply Forall2_impl; [exact Hr'|].
  intros [k v] kv' Hkv; simpl in *.
  apply bind_Ok in Hkv as (v' & Hv' & Hkv). by injection Hkv as <-.
Qed.

Lemma row_get_to_float c r r' v :
  cells_to_float r r' → row_get c r = Some v →
  ∃ v', to_float v = Ok v' ∧ row_get c r' = Some v'.
Proof.
  induction 1 as [|[k w] [k' w'] r r' [Hk Hw] _ IH]; simpl; [discriminate|].
  simpl in Hk, Hw. subst k'. destruct (decide (k = c)); [|exact IH].
  intros [= ->]. eauto.
Qed.

(** ** The calendar *)

Lemma forallb_range (P : Z → bool) (k : nat) :
  forallb (λ i, P (Z.of_nat i)) (seq 0 k) = true →
  ∀ z, 0 ≤ z < Z.of_nat k → P z = true.
Proof.
  intros H z Hz. rewrite forallb_forall in H.
  rewrite <- (Z2Nat.id z) by lia. apply H, in_seq. lia.
Qed.

Lemma month_day_spec leapyear n :
  0 ≤ n < 365 → Datetime.month_day_ok leapyear n = true.
Proof.
  intros Hn. apply (forallb_range (Datetime.month_day_ok leapyear) 365); [|lia].
  destruct leapyear; vm_compute; reflexivity.
Qed.

Lemma days_before_year_split a b c d :
  0 ≤ b ≤ 3 → 0 ≤ c ≤ 24 → 0 ≤ d ≤ 3 →
  Datetime.days_before_year (400 * a + 100 * b + 4 * c + d + 1)
  = 146097 * a + 36524 * b + 1461 * c + 365 * d.
Proof.
  intros Hb Hc Hd. unfold Datetime.days_before_year.
  replace (400 * a + 100 * b + 4 * c + d + 1 - 1) with (400 * a + 100 * b + 4 * c + d) by lia.
  Z.div_mod_to_equations. lia.
Qed.

Lemma is_leap_split a b c d :
  0 ≤ b ≤ 3 → 0 ≤ c ≤ 24 → 0 ≤ d ≤ 3 →
  Datetime.is_leap (400 * a + 100 * b + 4 * c + d + 1)
  = (d =? 3) && (negb (c =? 24) || (b =? 3)).
Proof.
  intros Hb Hc Hd. unfold Datetime.is_leap.
  repeat match goal with |- context [?x =? ?y] => destruct (Z.eqb_spec x y) end;
    simpl; try reflexivity; exfalso; Z.div_mod_to_equations; lia.
Qed.


Lemma month_day_inv leapyear n m d :
  0 ≤ n < 365 → Datetime.month_day n leapyear = (m, d) →
  1 ≤ m ≤ 12 ∧ 1 ≤ d ≤ 31
  ∧ Datetime.at_month Datetime.DAYS_BEFORE_MONTH m
    + (if (2 <? m) && leapyear then 1 else 0) + d = n + 1.
Proof.
  intros Hn E. pose proof (month_day_spec leapyear n Hn) as H.
  unfold Datetime.month_day_ok in H. rewrite E in H.
  repeat (apply andb_prop in H; destruct H as [H ?]). lia.
Qed.

Lemma ord2ymd_unfold n :
  Datetime.ord2ymd n =
  let a := (n - 1) / 146097 in
  let r := (n - 1) mod 146097 in
  let b := r / 36524 in
  let c := (r mod 36524) / 1461 in
  let r3 := (r mod 36524) mod 1461 in
  let d := r3 / 365 in
  let y := a * 400 + 1 + b * 100 + c * 4 + d in
  if (d =? 4) || (b =? 4) then (y - 1, 12, 31)
  else
    let md := Datetime.month_day (r3 mod 365) ((d =? 3) && (negb (c =? 24) || (b =? 3))) in
    (y, md.1, md.2).
Proof.
  unfold Datetime.ord2ymd, Datetime.month_day.
  change Datetime.DI400Y with 146097. change Datetime.DI100Y with 36524.
  change Datetime.DI4Y with 1461. cbv zeta.
  destruct (_ || _); [reflexivity|].
  destruct (_ <? _); reflexivity.
Qed.

Lemma ord2ymd_spec n :
  1 ≤ n →
  let '(y, m, d) := Datetime.ord2ymd n in
  Datetime.ymd2ord y m d = n ∧ 1 ≤ m ≤ 12 ∧ 1 ≤ d ≤ 31.
Proof.
  intros Hn. rewrite ord2ymd_unfold. cbv zeta.
  pose proof (Z.div_mod (n - 1) 146097 ltac:(lia)) as E1.
  pose proof (Z.mod_pos_bound (n - 1) 146097 ltac:(lia)) as B1.
  set (a := (n - 1) / 146097) in *. set (r := (n - 1) mod 146097) in *.
  clearbody a r.
  pose proof (Z.div_mod r 36524 ltac:(lia)) as E2.
  pose proof (Z.mod_pos_bound r 36524 ltac:(lia)) as B2.
  set (b := r / 36524) in *. set (r2 := r mod 36524) in *. clearbody b r2.
  pose proof (Z.div_mod r2 1461 ltac:(lia)) as E3.
  pose proof (Z.mod_pos_bound r2 1461 ltac:(lia)) as B3.
  set (c := r2 / 1461) in *. set (r3 := r2 mod 1461) in *. clearbody c r3.
  pose proof (Z.div_mod r3 365 ltac:(lia)) as E4.
  pose proof (Z.mod_pos_bound r3 365 ltac:(lia)) as B4.
  set (d := r3 / 365) in *. set (r4 := r3 mod 365) in *. clearbody d r4.
  assert (0 ≤ b ≤ 4) by lia. assert (0 ≤ c ≤ 24) by lia. assert (0 ≤ d ≤ 4) by lia.
  destruct (Z.eqb_spec d 4) as [Hd|Hd]; [|destruct (Z.eqb_spec b 4) as [Hb|Hb]]; simpl orb; cbv iota.
  - (* the last day of a leap year that closes a 4-year cycle *)
    assert (r4 = 0) by lia. assert (c ≤ 23) by lia. assert (b ≤ 3) by lia.
    split; [|lia]. unfold Datetime.ymd2ord, Datetime.days_before_month.
    replace (a * 400 + 1 + b * 100 + c * 4 + d - 1) with (400 * a + 100 * b + 4 * c + 3 + 1) by lia.
    rewrite days_before_year_split, is_leap_split by lia.
    replace (c =? 24) with false by (symmetry; apply Z.eqb_neq; lia).
    change (Datetime.at_month Datetime.DAYS_BEFORE_MONTH 12) with 334. simpl. lia.
  - (* the last day of a 400-year cycle *)
    assert (r2 = 0) by lia. assert (c = 0) by lia. assert (r3 = 0) by lia.
    assert (d = 0) by lia.
    split; [|lia]. unfold Datetime.ymd2ord, Datetime.days_before_month.
    replace (a * 400 + 1 + b * 100 + c * 4 + d - 1) with (400 * a + 100 * 3 + 4 * 24 + 3 + 1) by lia.
    rewrite days_before_year_split, is_leap_split by lia.
    change (Datetime.at_month Datetime.DAYS_BEFORE_MONTH 12) with 334. simpl. lia.
  - assert (d ≤ 3) by lia. assert (b ≤ 3) by lia.
    destruct (Datetime.month_day r4 _) as [m dd] eqn:Emd.
    apply month_day_inv in Emd; [|lia]. destruct Emd as (Hm & Hdd & Hsum).
    split; [|simpl; lia]. simpl fst; simpl snd.
    unfold Datetime.ymd2ord, Datetime.days_before_month.
    replace (a * 400 + 1 + b * 100 + c * 4 + d) with (400 * a + 100 * b + 4 * c + d + 1) by lia.
    rewrite days_before_year_split, is_leap_split by lia. lia.
Qed.

Lemma fromordinal_Ok n d :
  Datetime.fromordinal n = Ok d →
  1 ≤ n ≤ Datetime.MAXORDINAL ∧ Datetime.toordinal d = n
  ∧ 1 ≤ Datetime.month d ≤ 12 ∧ 1 ≤ Datetime.day d ≤ 31.
Proof.
  unfold Datetime.fromordinal.
  destruct (Z.ltb_spec n 1); [discriminate|].
  destruct (Z.ltb_spec Datetime.MAXORDINAL n); [discriminate|].
  pose proof (ord2ymd_spec n ltac:(lia)) as H1.
  destruct (Datetime.ord2ymd n) as [[y m] dd]. intros [= <-].
  unfold Datetime.toordinal; simpl. split; [lia|]. tauto.
Qed.

Lemma fromordinal_total n :
  1 ≤ n ≤ Datetime.MAXORDINAL → ∃ d, Datetime.fromordinal n = Ok d.
Proof.
  intros Hn. unfold Datetime.fromordinal.
  destruct (Z.ltb_spec n 1); [lia|].
  destruct (Z.ltb_spec Datetime.MAXORDINAL n); [lia|].
  destruct (Datetime.ord2ymd n) as [[y m] dd]. eauto.
Qed.

Lemma game_day_Ok x d :
  game_day x = Ok d → ∃ z, x = Int z ∧ Datetime.fromordinal (693594 + z) = Ok d.
Proof.
  destruct x as [|z|q|s]; simpl; try discriminate.
  change (Datetime.toordinal _) with 693596.
  replace (693596 + z - 2) with (693594 + z) by lia. eauto.
Qed.

Lemma float_of_month d :
  1 ≤ Datetime.month d ≤ 12 →
  float_of_str (Datetime.strftime_m d) = Some (inject_Z (Datetime.month d)).
Proof.
  intros Hm. unfold Datetime.strftime_m.
  assert (Datetime.month d ∈ [1; 2; 3; 4; 5; 6; 7; 8; 9; 10; 11; 12]) as Hin.
  { rewrite !elem_of_cons. lia. }
  repeat (apply elem_of_cons in Hin as [->|Hin]; [reflexivity|]).
  by apply elem_of_nil in Hin.
Qed.

Lemma Qle_bool_inject_Z a b : Qle_bool (inject_Z a) (inject_Z b) = (a <=? b).
Proof. unfold Qle_bool; simpl. by rewrite !Z.mul_1_r. Qed.

(** C7.  Every row that leaves the calendar step carries, as functions of
    its integer game date [x] alone: in [WEEKDAY] the weekday of day
    [693594 + x] of the calendar, 0 for Monday to 6 for Sunday; in
    [WEEKEND_GAME] 1 exactly when that weekday is 5 or 6; in [MONTH_NUM]
    the month of that day, from 1 to 12; in [PLAYOFF_GAME] 1 exactly when
    the month is 4, 5 or 6.  The offset sends 42064 to 2015-03-01, a
    Sunday: weekday 6, weekend 1, month 3, playoff 0. *)
Theorem calendar_features_of_date df df' :
  calendar_featurizer df = Ok df' →
  Forall2 calendar_of (rows df) (rows df')
  ∧ Datetime.fromordinal (693594 + 42064) = Ok (Datetime.mk_datetime 2015 3 1)
  ∧ (693594 + 42064 + 6) mod 7 = 6.
Proof.
  intros H. split; [|split; reflexivity].
  unfold calendar_featurizer in H.
  apply bind_Ok in H as (df1 & H1 & H). apply bind_Ok in H as (df2 & H2 & H).
  apply bind_Ok in H as (df3 & H3 & H). apply bind_Ok in H as (df4 & H4 & H).
  apply assign_apply_Ok in H1 as [_ H1]. apply assign_apply_Ok in H2 as [_ H2].
  apply assign_apply_Ok in H3 as [_ H3]. apply astype_float_Ok in H4 as [_ H4].
  apply assign_apply_Ok in H as [_ H5].
  pose proof (Forall2_compose _ _ _ _ _ H1
                (Forall2_compose _ _ _ _ _ H2
                   (Forall2_compose _ _ _ _ _ H3
                      (Forall2_compose _ _ _ _ _ H4 H5)))) as HF.
  eapply Forall2_impl; [exact HF|]. clear. unfold calendar_of.
  intros [l r] lr5 (lr1 & (x & wd & Hx & Hwd & ->) & lr2 & (v2 & we & Hv2 & Hwe & ->)
                    & lr3 & (v3 & mm & Hv3 & Hmm & ->) & lr4 & [Hl Hfl]
                    & (v5 & pl & Hv5 & Hpl & ->)).
  simpl in *.
  split; [done|].
  apply bind_Ok in Hwd as (d & Hd & [= <-]).
  apply game_day_Ok in Hd as (z & -> & Hd).
  apply fromordinal_Ok in Hd as Hd'. destruct Hd' as (Hrange & Hord & Hmonth & _).
  exists z, d. split; [done|]. split; [done|].
  rewrite row_get_set_eq in Hv2. injection Hv2 as <-.
  injection Hwe as <-.
  rewrite !row_get_set_ne in Hv3 by done. rewrite Hv3 in Hx. injection Hx as ->.
  apply bind_Ok in Hmm as (d' & Hd' & [= <-]).
  apply game_day_Ok in Hd' as (z' & [= <-] & Hd'). rewrite Hd' in Hd.
  injection Hd as ->.
  set (r3 := row_set "MONTH_NUM" _ _) in *.
  assert (row_get "WEEKDAY" r3 = Some (Int (Datetime.weekday d))) as G1.
  { unfold r3. rewrite !row_get_set_ne by done. apply row_get_set_eq. }
  assert (row_get "WEEKEND_GAME" r3
          = Some (Int (if negb (Qle_bool 5 (inject_Z (Datetime.weekday d))) then 0 else 1))) as G2.
  { unfold r3. rewrite !row_get_set_ne by done. apply row_get_set_eq. }
  assert (row_get "MONTH_NUM" r3 = Some (Str (Datetime.strftime_m d))) as G3.
  { unfold r3. apply row_get_set_eq. }
  clearbody r3.
  destruct (row_get_to_float _ _ _ _ Hfl G1) as (c1 & [= <-] & F1).
  destruct (row_get_to_float _ _ _ _ Hfl G2) as (c2 & [= <-] & F2).
  destruct (row_get_to_float _ _ _ _ Hfl G3) as (c3 & E3 & F3).
  unfold to_float in E3. rewrite float_of_month in E3 by done. injection E3 as <-.
  rewrite F3 in Hv5. injection Hv5 as <-. injection Hpl as <-.
  rewrite !row_get_set_ne by done. rewrite row_get_set_eq.
  unfold Datetime.weekday in *. rewrite Hord in *.
  change 5%Q with (inject_Z 5) in F2. change 6%Q with (inject_Z 6).
  change 4%Q with (inject_Z 4). rewrite !Qle_bool_inject_Z in *.
  pose proof (Z.mod_pos_bound (693594 + z + 6) 7 ltac:(lia)).
  repeat split; try done; try lia.
  - rewrite F2. by destruct (5 <=? _).
  - by rewrite andb_comm.
Qed.

Lemma calendar_features_of_date_witness :
  ∃ df',
    calendar_featurizer Samples.sunday_game = Ok df'
    ∧ rows df' = [(0, [("GAME_DATE_EST", Flt (inject_Z 42064));
                       ("WEEKDAY", Flt (inject_Z 6));
                       ("WEEKEND_GAME", Flt (inject_Z 1));
                       ("MONTH_NUM", Flt (inject_Z 3));
                       ("PLAYOFF_GAME", Int 0)])]
    ∧ Forall2 calendar_of (rows Samples.sunday_game) (rows df').
Proof.
  eexists. split; [vm_compute; reflexivity|]. split; [reflexivity|].
  apply (calendar_features_of_date Samples.sunday_game). vm_compute. reflexivity.
Defined.

(** ** The leakage filter *)

Lemma require_all_Ok cs df : require_all cs df = Ok () → Forall (λ c, c ∈ columns df) cs.
Proof.
  induction cs as [|c cs IH]; simpl; [constructor|].
  intros H. apply bind_Ok in H as ([] & Hc & H).
  constructor; [by apply require_Ok | auto].
Qed.

Lemma drop_columns_Ok cs df df' :
  drop_columns cs df = Ok df' →
  Forall (λ c, c ∈ columns df) cs
  ∧ columns df' = List.filter (λ c, negb (bool_decide (c ∈ cs))) (columns df)
  ∧ rows df' = map (λ lr, (lr.1, row_drop cs lr.2)) (rows df).
Proof.
  unfold drop_columns. intros H. apply bind_Ok in H as ([] & Hc & H).
  injection H as <-. split; [by apply require_all_Ok | done].
Qed.

Lemma row_get_drop_in cs c r : c ∈ cs → row_get c (row_drop cs r) = None.
Proof.
  intros Hc. induction r as [|[k v] r IH]; simpl; [done|].
  case_bool_decide as Hk; simpl; [exact IH|].
  destruct (decide (k = c)) as [->|]; [contradiction|exact IH].
Qed.

Lemma row_get_drop_notin cs c r : c ∉ cs → row_get c (row_drop cs r) = row_get c r.
Proof.
  intros Hc. induction r as [|[k v] r IH]; simpl; [done|].
  case_bool_decide as Hk; simpl.
  - destruct (decide (k = c)) as [->|]; [contradiction|exact IH].
  - destruct (decide (k = c)); [done|exact IH].
Qed.

Lemma elem_of_iloc {A} (ps : list nat) (l : list A) x : x ∈ iloc ps l → x ∈ l.
Proof.
  unfold iloc. rewrite list_elem_of_omap. intros (i & _ & Hi).
  by eapply list_elem_of_lookup_2.
Qed.

Lemma train_test_split_Ok sk X y sp :
  train_test_split sk X y = Ok sp →
  columns (X_train sp) = columns X ∧ columns (X_test sp) = columns X
  ∧ (∀ lr, lr ∈ rows (X_train sp) → lr ∈ rows X)
  ∧ (∀ lr, lr ∈ rows (X_test sp) → lr ∈ rows X)
  ∧ (∀ v, v ∈ y_train sp → v ∈ y) ∧ (∀ v, v ∈ y_test sp → v ∈ y).
Proof.
  unfold train_test_split. case_decide; [discriminate|]. intros [= <-]; simpl.
  repeat split; try done; intros ?; apply elem_of_iloc.
Qed.

(** C2.  The feature matrix [X] that the pipeline hands over, and the
    training and test parts cut from it for the classifiers, have no
    column under the label [HOME_TEAM_WINS] nor under any of the twelve
    box-score labels of the game itself, and no row of them has a cell
    under such a label. *)
Theorem feature_matrix_has_no_leaking_column sk games teams ranking X y sp M c :
  features games teams ranking = Ok (X, y) →
  train_test_split sk X y = Ok sp →
  M ∈ [X; X_train sp; X_test sp] →
  c ∈ ["HOME_TEAM_WINS";
       "PTS_home"; "FG_PCT_home"; "FT_PCT_home"; "FG3_PCT_home";
       "AST_home"; "REB_home";
       "PTS_away"; "FG_PCT_away"; "FT_PCT_away"; "FG3_PCT_away";
       "AST_away"; "REB_away"] →
  (c ∉ columns M) ∧ (∀ lr, lr ∈ rows M → row_get c lr.2 = None).
Proof.
  intros HX Hsp HM Hc.
  change (c ∈ LEAKING) in Hc.
  assert ((c ∉ columns X) ∧ (∀ lr, lr ∈ rows X → row_get c lr.2 = None)) as [HcX HrX].
  { unfold features in HX.
    do 6 (apply bind_Ok in HX as (? & _ & HX)).
    unfold leakage_filter in HX. apply bind_Ok in HX as (y' & _ & HX).
    apply bind_Ok in HX as (X' & HX' & HX). injection HX as -> ->.
    apply drop_columns_Ok in HX' as (_ & Hcols & Hrows). split.
    - rewrite Hcols, list_elem_of_In, filter_In, <- list_elem_of_In.
      intros [_ Hn]. by rewrite bool_decide_true in Hn.
    - intros lr. rewrite Hrows, list_elem_of_fmap. intros (lr0 & -> & _); simpl.
      by apply row_get_drop_in. }
  apply train_test_split_Ok in Hsp as (Ec1 & Ec2 & Hr1 & Hr2 & _).
  rewrite !elem_of_cons in HM. destruct HM as [->|[->|[->|HM]]].
  - done.
  - rewrite Ec1. split; [done|]. intros lr Hlr. apply HrX, Hr1, Hlr.
  - rewrite Ec2. split; [done|]. intros lr Hlr. apply HrX, Hr2, Hlr.
  - by apply elem_of_nil in HM.
Qed.

Lemma feature_matrix_has_no_leaking_column_witness :
  ∃ X y sp,
    features Samples.games Samples.teams Samples.ranking = Ok (X, y)
    ∧ train_test_split (Samples.toy []) X y = Ok sp
    ∧ rows (X_train sp) ≠ []
    ∧ ("HOME_TEAM_WINS" ∉ columns (X_train sp))
    ∧ (∀ lr, lr ∈ rows (X_train sp) → row_get "HOME_TEAM_WINS" lr.2 = None).
Proof.
  eexists _, _, _.
  split; [vm_compute; reflexivity|]. split; [vm_compute; reflexivity|].
  split; [discriminate|].
  eapply (feature_matrix_has_no_leaking_column (Samples.toy [])
            Samples.games Samples.teams Samples.ranking).
  - vm_compute; reflexivity.
  - vm_compute; reflexivity.
  - apply list_elem_of_further, list_elem_of_here.
  - apply list_elem_of_here.
Defined.

(** ** The standings join *)

(** C1, on the sample tables.  The standings of both teams are dated
    2015-04-06 (42100).  The claim has the games of 2015-03-01 (42064) and
    2015-03-02 (42065) dropped, since no standings are dated before them,
    and the game of 2015-07-15 (42200) joined to the standings of
    2015-04-06.  The script does the contrary: the join compares the row
    labels of the two tables, not their dates, so the game in row 0 is
    dropped and the games in rows 2 and 3 are kept with standings dated
    after them. *)
Theorem standings_join_compares_row_labels :
  JoinSample.dates <$> JoinSample.home_joined
    = Ok [(1, Some (Int 42064), Some (Int 42100));
          (2, Some (Int 42064), Some (Int 42100));
          (3, Some (Int 42065), Some (Int 42100))]
  ∧ JoinSample.win_pct <$> JoinSample.joined
    = Ok [(2, Some (Flt (9 # 10)), Some (Flt (1 # 10)));
          (3, Some (Flt (1 # 10)), Some (Flt (9 # 10)))].
Proof. split; vm_compute; reflexivity. Qed.

(** ** The long-run averages *)


(** ** Keys and groups *)

Lemma cell_eqb_sym a b : cell_eqb a b = cell_eqb b a.
Proof.
  destruct a, b; simpl; try reflexivity;
    try (apply eq_true_iff_eq; rewrite !Qeq_bool_iff; split; intros H; by symmetry).
  apply bool_decide_ext. split; congruence.
Qed.

Lemma cell_eqb_trans a b c : cell_eqb a b = true → cell_eqb b c = true → cell_eqb a c = true.
Proof.
  destruct a, b, c; simpl; try discriminate; try done;
    rewrite ?Qeq_bool_iff, ?bool_decide_eq_true; try congruence;
    intros H1 H2; by rewrite H1.
Qed.

Lemma cell_eqb_refl a : cell_eqb a a = true.
Proof.
  destruct a; simpl; try done; try (apply Qeq_bool_iff; reflexivity).
  by apply bool_decide_eq_true.
Qed.

Lemma cell_eqb_congr a b c : cell_eqb a b = true → cell_eqb a c = cell_eqb b c.
Proof.
  intros H. destruct (cell_eqb b c) eqn:E.
  - eapply cell_eqb_trans; eauto.
  - destruct (cell_eqb a c) eqn:E'; [|done].
    rewrite cell_eqb_sym in H. by rewrite (cell_eqb_trans _ _ _ H E') in E.
Qed.

Lemma filter_app' {A} (f : A → bool) l1 l2 :
  List.filter f (l1 ++ l2) = List.filter f l1 ++ List.filter f l2.
Proof. induction l1 as [|x l1 IH]; simpl; [done|]. destruct (f x); simpl; by rewrite IH. Qed.

Lemma filter_nil_existsb {A} (f : A → bool) l :
  existsb f l = false → List.filter f l = [].
Proof.
  induction l as [|x l IH]; simpl; [done|].
  destruct (f x); simpl; [discriminate|exact IH].
Qed.

Lemma at_most_once_snoc keys k0 :
  at_most_once keys → existsb (cell_eqb k0) keys = false → at_most_once (keys ++ [k0]).
Proof.
  intros H Hk0 k. rewrite filter_app', length_app. simpl.
  destruct (cell_eqb k k0) eqn:E; simpl; [|specialize (H k); lia].
  rewrite filter_nil_existsb; [simpl; lia|].
  rewrite <- Hk0. clear -E. induction keys as [|a keys IH]; simpl; [done|].
  by rewrite IH, (cell_eqb_congr _ _ _ E).
Qed.

Lemma distinct_keys_fold index rs :
  distinct_keys index rs = foldl (key_step index) [] rs.
Proof. reflexivity. Qed.

Lemma key_step_spec index acc lr :
  at_most_once acc →
  at_most_once (key_step index acc lr)
  ∧ (∀ k, existsb (cell_eqb k) acc = true → existsb (cell_eqb k) (key_step index acc lr) = true)
  ∧ (∀ k, row_get index lr.2 = Some k → is_nan k = false →
          existsb (cell_eqb k) (key_step index acc lr) = true).
Proof.
  intros Hacc. unfold key_step.
  destruct (row_get index lr.2) as [k0|]; [|by repeat split].
  destruct (is_nan k0) eqn:En; simpl.
  { repeat split; try done. intros k [= ->]. congruence. }
  destruct (existsb (cell_eqb k0) acc) eqn:Ex.
  { repeat split; try done. by intros k [= ->]. }
  split; [by apply at_most_once_snoc|]. split.
  - intros k Hk. rewrite existsb_app, Hk. done.
  - intros k [= ->] _. rewrite existsb_app. simpl. by rewrite cell_eqb_refl, orb_true_r.
Qed.

Lemma foldl_key_step_spec index rs acc :
  at_most_once acc →
  at_most_once (foldl (key_step index) acc rs)
  ∧ (∀ k, existsb (cell_eqb k) acc = true →
          existsb (cell_eqb k) (foldl (key_step index) acc rs) = true)
  ∧ (∀ lr k, lr ∈ rs → row_get index lr.2 = Some k → is_nan k = false →
          existsb (cell_eqb k) (foldl (key_step index) acc rs) = true).
Proof.
  revert acc. induction rs as [|lr rs IH]; intros acc Hacc; simpl.
  - repeat split; try done. intros lr k Hin. by apply elem_of_nil in Hin.
  - destruct (key_step_spec index acc lr Hacc) as (H1 & H2 & H3).
    destruct (IH _ H1) as (I1 & I2 & I3). repeat split; auto.
    intros lr' k Hin Hk Hn. apply elem_of_cons in Hin as [->|Hin]; eauto.
Qed.

Lemma distinct_keys_spec index rs :
  at_most_once (distinct_keys index rs)
  ∧ (∀ lr k, lr ∈ rs → row_get index lr.2 = Some k → is_nan k = false →
      existsb (cell_eqb k) (distinct_keys index rs) = true).
Proof.
  destruct (foldl_key_step_spec index rs []) as (H1 & _ & H3); [|done].
  intros k. simpl. lia.
Qed.

(** *** Sorting keeps the elements *)

Lemma insert_by_perm {A} (key : A → cell) x l : insert_by key x l ≡ₚ x :: l.
Proof.
  induction l as [|y l IH]; simpl; [done|].
  destruct (cell_leb _ _); [|done]. rewrite IH. apply Permutation_swap.
Qed.

Lemma sort_by_perm {A} (key : A → cell) l : sort_by key l ≡ₚ l.
Proof.
  unfold sort_by. induction l as [|x l IH]; simpl; [done|].
  by rewrite insert_by_perm, IH.
Qed.

Lemma filter_perm {A} (f : A → bool) l1 l2 :
  l1 ≡ₚ l2 → List.filter f l1 ≡ₚ List.filter f l2.
Proof.
  induction 1 as [|x l1 l2 _ IH|x y l|l1 l2 l3 _ IH1 _ IH2]; simpl.
  - done.
  - destruct (f x); by rewrite IH.
  - destruct (f x), (f y); try done. apply Permutation_swap.
  - by rewrite IH1.
Qed.

Lemma at_most_once_perm l1 l2 : l1 ≡ₚ l2 → at_most_once l1 → at_most_once l2.
Proof.
  intros Hp H k. rewrite <- (Permutation_length (filter_perm (cell_eqb k) _ _ Hp)). apply H.
Qed.

Lemma existsb_perm {A} (f : A → bool) l1 l2 : l1 ≡ₚ l2 → existsb f l1 = existsb f l2.
Proof.
  induction 1 as [|x l1 l2 _ IH|x y l|l1 l2 l3 _ IH1 _ IH2]; simpl.
  - done.
  - by rewrite IH.
  - destruct (f x), (f y); done.
  - by rewrite IH1.
Qed.

(** The one key of [keys] that equals [k]. *)
Lemma unique_key keys k :
  at_most_once keys → existsb (cell_eqb k) keys = true →
  ∃ k', List.filter (cell_eqb k) keys = [k'] ∧ cell_eqb k k' = true.
Proof.
  intros H Hex. specialize (H k).
  destruct (List.filter (cell_eqb k) keys) as [|k' [|k'' l]] eqn:E.
  - apply existsb_exists in Hex as (x & Hin & Hx).
    assert (In x (List.filter (cell_eqb k) keys)) as Hf by (apply filter_In; done).
    rewrite E in Hf. destruct Hf.
  - exists k'. split; [done|].
    assert (In k' (List.filter (cell_eqb k) keys)) as Hf by (rewrite E; by left).
    by apply filter_In in Hf as [_ ?].
  - simpl in H. lia.
Qed.



Lemma map_labels_id (f : string → string) r :
  (∀ c, f c = c) → map_labels f r = r.
Proof.
  intros Hf. unfold map_labels. induction r as [|[k v] r IH]; simpl; [done|].
  by rewrite Hf, IH.
Qed.

Lemma suffixed_nil sfx c : suffixed [] sfx c = c.
Proof. unfold suffixed. rewrite bool_decide_false; [done|]. apply not_elem_of_nil. Qed.

Lemma overlap_nil on lcols rcols :
  (∀ c, c ∈ lcols → c ∈ rcols → c ∈ on) → overlap on lcols rcols = [].
Proof.
  intros H. unfold overlap. induction lcols as [|c l IH]; simpl; [done|].
  rewrite IH by (intros; apply H; [by right|done]).
  case_bool_decide as Hr; simpl; [|done].
  rewrite bool_decide_true; [done|]. apply H; [by left|done].
Qed.

Lemma group_values_congr index c k k' rs :
  cell_eqb k k' = true → group_values index c k' rs = group_values index c k rs.
Proof.
  intros E. unfold group_values. f_equal. apply filter_ext. intros lr.
  destruct (row_get index lr.2) as [x|]; simpl; [|done].
  symmetry. by apply cell_eqb_congr.
Qed.

Lemma filter_imap_nil {A B} (p : A → bool) (P : B → bool) (l : list A) :
  ∀ h : nat → A → B, (∀ i x, P (h i x) = p x) →
  List.filter p l = [] → List.filter P (imap h l) = [].
Proof.
  induction l as [|x l IH]; intros h Hh; simpl; [done|].
  rewrite Hh. destruct (p x); [discriminate|]. intros E.
  apply IH; [intros; apply Hh | done].
Qed.

Lemma filter_imap_one {A B} (p : A → bool) (P : B → bool) (l : list A) k :
  ∀ h : nat → A → B, (∀ i x, P (h i x) = p x) →
  List.filter p l = [k] → ∃ i, List.filter P (imap h l) = [h i k].
Proof.
  induction l as [|x l IH]; intros h Hh; simpl; [discriminate|].
  rewrite Hh. destruct (p x).
  - intros [= -> E]. exists 0%nat. f_equal.
    apply (filter_imap_nil p); [intros; apply Hh | done].
  - intros E. destruct (IH (h ∘ S) (λ i, Hh (S i)) E) as [i Hi]. by exists (S i).
Qed.

Lemma pivot_mean_Ok c index df table :
  pivot_mean c index df = Ok table →
  c ∈ columns df ∧ index ∈ columns df ∧
  table = Frame [index; c]
            (reset_index
               (map (λ k, [(index, k); (c, Flt (mean (group_values index c k (rows df))))])
                    (sort_by id (distinct_keys index (rows df))))).
Proof.
  unfold pivot_mean. intros H.
  apply bind_Ok in H as ([] & Hc & H). apply bind_Ok in H as ([] & Hi & H).
  destruct (existsb _ _); [discriminate|]. injection H as <-.
  by rewrite <- !require_Ok.
Qed.

Lemma flat_map_singleton {A B} (f : A → list B) (g : A → B) l :
  (∀ x, x ∈ l → f x = [g x]) → flat_map f l = map g l.
Proof.
  induction l as [|x l IH]; intros H; simpl; [done|].
  rewrite H by left. rewrite IH; [done|]. intros; apply H; by right.
Qed.

Lemma add_hist_Ok c index new df df' :
  add_hist c index new df = Ok df' →
  new ∉ columns df → new ≠ index → c ≠ index → keyed index df →
  columns df' = columns df ++ [new]
  ∧ rows df' = reset_index
                 (map (λ lr, lr.2 ++ [(new, hist_cell (rows df) index c lr.2)]) (rows df)).
Proof.
  intros H Hnew Hni Hci Hkey. unfold add_hist in H.
  apply bind_Ok in H as (table & Ht & H).
  apply pivot_mean_Ok in Ht as (Hc & Hi & ->).
  unfold merge_left in H.
  apply bind_Ok in H as ([] & _ & H). apply bind_Ok in H as ([] & _ & H).
  injection H as <-. unfold rename, relabel; simpl.
  rewrite !(decide_False (P := c = index)) by done. rewrite !decide_True by done.
  rewrite overlap_nil; cycle 1.
  { intros x Hx. rewrite !elem_of_cons. intros [->|[->|Hn]]; [by left|done|by apply elem_of_nil in Hn]. }
  rewrite (bool_decide_true (index = index)) by done. simpl.
  rewrite (bool_decide_false (new = index)) by done. simpl.
  rewrite suffixed_nil.
  rewrite (map_ext _ id) by (intros; apply suffixed_nil). rewrite map_id.
  split; [done|]. f_equal.
  apply flat_map_singleton. intros [l r] Hlr; simpl.
  rewrite map_labels_id by apply suffixed_nil.
  destruct (Hkey _ Hlr) as (k & Hk & Hnan); simpl in Hk.
  destruct (distinct_keys_spec index (rows df)) as [Hu Hex].
  specialize (Hex _ _ Hlr Hk Hnan).
  pose proof (sort_by_perm id (distinct_keys index (rows df))) as Hp.
  assert (at_most_once (sort_by id (distinct_keys index (rows df)))) as Hu'
    by (eapply at_most_once_perm; [symmetry; exact Hp|exact Hu]).
  rewrite <- (existsb_perm _ _ _ Hp) in Hex.
  destruct (unique_key _ _ Hu' Hex) as (k' & Hf & Ek).
  set (keys := sort_by id _) in *. clearbody keys.
  change (map ?f ?l) with (f <$> l). unfold reset_index.
  rewrite imap_fmap, fmap_imap.
  match goal with
  | |- context [List.filter ?P (imap ?h keys)] =>
      destruct (filter_imap_one (cell_eqb k) P keys k' h) as [i Hi'];
        [|exact Hf|rewrite Hi']
  end.
  { intros i x. simpl. rewrite Hk. simpl.
    rewrite (decide_False (P := c = index)) by done. by rewrite decide_True. }
  simpl. rewrite (decide_False (P := c = index)) by done. rewrite decide_True by done.
  simpl. rewrite (bool_decide_true (index ∈ [index])) by (by left). simpl.
  rewrite (bool_decide_false (new ∈ [index])); cycle 1.
  { rewrite list_elem_of_singleton. done. }
  simpl. rewrite suffixed_nil. unfold hist_cell, column_cell. rewrite Hk. simpl.
  by rewrite (group_values_congr _ _ _ _ _ Ek).
Qed.




Lemma row_get_app c r e :
  row_get c (r ++ e) = match row_get c r with Some v => Some v | None => row_get c e end.
Proof.
  induction r as [|[k v] r IH]; simpl; [done|]. by destruct (decide (k = c)).
Qed.

Lemma row_get_Some c r : c ∈ map fst r → ∃ v, row_get c r = Some v ∧ (c, v) ∈ r.
Proof.
  induction r as [|[k v] r IH]; simpl; [by intros ?%elem_of_nil|].
  rewrite elem_of_cons. intros Hin. destruct (decide (k = c)) as [->|Hne].
  - exists v. split; [done|by left].
  - destruct Hin as [->|Hin]; [done|]. destruct (IH Hin) as (w & ? & ?).
    exists w. split; [done|by right].
Qed.

Lemma row_get_None c r : c ∉ map fst r → row_get c r = None.
Proof.
  induction r as [|[k v] r IH]; simpl; [done|].
  rewrite not_elem_of_cons. intros [Hne Hin]. by rewrite decide_False, IH.
Qed.

Lemma row_has_nan_false r c v : row_has_nan r = false → (c, v) ∈ r → is_nan v = false.
Proof.
  unfold row_has_nan. intros H Hin.
  destruct (is_nan v) eqn:E; [|done].
  assert (existsb (λ kv : string * cell, is_nan kv.2) r = true) as H'; [|congruence].
  apply existsb_exists. exists (c, v). split; [by apply list_elem_of_In|done].
Qed.

Lemma keyed_of index df :
  well_formed df → no_missing df → index ∈ columns df → keyed index df.
Proof.
  intros Hwf Hnm Hi lr Hlr. rewrite <- (Hwf _ Hlr) in Hi.
  destruct (row_get_Some _ _ Hi) as (k & Hk & Hin). exists k. split; [done|].
  eapply row_has_nan_false; eauto.
Qed.

Lemma group_values_ext index c k rs rs' :
  Forall2 (λ lr lr', row_get index lr'.2 = row_get index lr.2
                     ∧ row_get c lr'.2 = row_get c lr.2) rs rs' →
  group_values index c k rs' = group_values index c k rs.
Proof.
  unfold group_values. induction 1 as [|lr lr' rs rs' [Hi Hc] _ IH]; [done|].
  cbn [List.filter]. rewrite Hi.
  destruct (key_eqb (Some k) (row_get index lr.2)); [|exact IH].
  cbn [omap list_omap]. rewrite Hc.
  destruct (row_get c lr.2 ≫= cell_num); [f_equal|]; exact IH.
Qed.

Lemma Forall2_imap_r {A B} (P : A → B → Prop) (h : nat → B → B) l k :
  (∀ i x y, P x y → P x (h i y)) → Forall2 P l k → Forall2 P l (imap h k).
Proof.
  intros Hh H. revert h Hh. induction H; intros h Hh; simpl; constructor; auto.
  apply IHForall2. intros; apply Hh; done.
Qed.

Lemma Forall2_reset_index (P : Z * row → Z * row → Prop) (g : Z * row → row) rs :
  (∀ lr i, lr ∈ rs → P lr (i, g lr)) → Forall2 P rs (reset_index (map g rs)).
Proof.
  intros H. unfold reset_index. change (map g rs) with (g <$> rs).
  rewrite imap_fmap.
  assert (∀ (h : nat → Z * row → Z * row) l, (∀ lr i, lr ∈ l → P lr (h i lr)) →
          Forall2 P l (imap h l)) as Hgen.
  { intros h l. revert h. induction l as [|x l IH]; intros h Hh; simpl; constructor.
    - apply Hh. by left.
    - apply IH. intros; apply Hh; by right. }
  apply Hgen. intros lr i Hin. apply H, Hin.
Qed.

Lemma elem_of_reset_index (g : Z * row → row) rs lr' :
  lr' ∈ reset_index (map g rs) → ∃ lr, lr ∈ rs ∧ lr'.2 = g lr.
Proof.
  intros Hin.
  pose proof (Forall2_reset_index (λ lr lr', lr'.2 = g lr) g rs (λ _ _ _, eq_refl)) as HF.
  apply list_elem_of_lookup in Hin as [i Hi].
  destruct (Forall2_lookup_r _ _ _ _ _ HF Hi) as (lr & Hl & E).
  exists lr. split; [by eapply list_elem_of_lookup_2|done].
Qed.

Lemma foldl_Raise {A B} (g : A → B → result A) e bs :
  foldl (λ acc b, a ← acc; g a b) (Raise e) bs = Raise e.
Proof. induction bs; simpl; auto. Qed.

Lemma row_get_app_other c new v r :
  c ≠ new → row_get c (r ++ [(new, v)]) = row_get c r.
Proof.
  intros Hne. rewrite row_get_app. destruct (row_get c r); [done|].
  simpl. by rewrite decide_False.
Qed.

Lemma add_hist_keeps c index new df df' :
  add_hist c index new df = Ok df' →
  well_formed df → no_missing df →
  new ∉ columns df → new ≠ index → c ≠ index →
  columns df' = columns df ++ [new]
  ∧ Forall2 (λ lr lr', lr'.2 = lr.2 ++ [(new, hist_cell (rows df) index c lr.2)])
            (rows df) (rows df')
  ∧ well_formed df' ∧ no_missing df'.
Proof.
  intros H Hwf Hnm Hnew Hni Hci.
  assert (index ∈ columns df) as Hi.
  { unfold add_hist in H. apply bind_Ok in H as (t & Ht & _).
    apply pivot_mean_Ok in Ht. tauto. }
  destruct (add_hist_Ok _ _ _ _ _ H Hnew Hni Hci (keyed_of _ _ Hwf Hnm Hi)) as [Ec Er].
  split; [done|]. split; [|split].
  - rewrite Er. by apply Forall2_reset_index.
  - intros lr' Hin. rewrite Er in Hin.
    apply elem_of_reset_index in Hin as (lr & Hlr & E).
    unfold row in *. rewrite E.
    rewrite Ec, map_app, (Hwf _ Hlr). done.
  - intros lr' Hin. rewrite Er in Hin.
    apply elem_of_reset_index in Hin as (lr & Hlr & E).
    unfold row in *. rewrite E.
    unfold row_has_nan. rewrite existsb_app.
    pose proof (Hnm _ Hlr) as Hn. unfold row_has_nan, row in Hn. by rewrite Hn.
Qed.

Lemma hist_cell_ext rs rs' index c r r' :
  Forall2 (λ lr lr', row_get index lr'.2 = row_get index lr.2
                     ∧ row_get c lr'.2 = row_get c lr.2) rs rs' →
  row_get index r' = row_get index r →
  hist_cell rs' index c r' = hist_cell rs index c r.
Proof.
  intros HF Hr. unfold hist_cell, column_cell. rewrite Hr.
  by rewrite (group_values_ext _ _ _ _ _ HF).
Qed.

Lemma add_hists_Ok index blocks : ∀ df df',
  add_hists index blocks df = Ok df' →
  well_formed df → no_missing df →
  (∀ b, b ∈ blocks → (b.2 ∉ columns df) ∧ b.2 ≠ index ∧ b.1 ≠ index) →
  NoDup (map snd blocks) →
  (∀ b b', b ∈ blocks → b' ∈ blocks → b.1 ≠ b'.2) →
  columns df' = columns df ++ map snd blocks
  ∧ Forall2 (λ lr lr', lr'.2 = lr.2 ++ hist_cells (rows df) index blocks lr.2)
            (rows df) (rows df')
  ∧ well_formed df' ∧ no_missing df'.
Proof.
  induction blocks as [|b bs IH]; intros df df' H Hwf Hnm Hb Hnd Hsrc.
  - injection H as <-. rewrite app_nil_r. repeat split; try done.
    apply Forall2_same_length_lookup_2; [done|].
    intros i x y Hx Hy. rewrite Hx in Hy. injection Hy as <-.
    unfold hist_cells; simpl. by rewrite app_nil_r.
  - unfold add_hists in H. simpl in H.
    destruct (add_hist b.1 index b.2 df) as [df1|e] eqn:E1;
      [|by rewrite (foldl_Raise (λ df b, add_hist b.1 index b.2 df)) in H].
    destruct (Hb b ltac:(by left)) as (Hb1 & Hb2 & Hb3).
    destruct (add_hist_keeps _ _ _ _ _ E1 Hwf Hnm Hb1 Hb2 Hb3) as (Ec1 & Hr1 & Hwf1 & Hnm1).
    apply NoDup_cons in Hnd as [Hnb Hnd].
    destruct (IH df1 df' H Hwf1 Hnm1) as (Ec & Hr & Hwf' & Hnm'); [|done|..].
    { intros b' Hb'. destruct (Hb b' ltac:(by right)) as (? & ? & ?).
      repeat split; try done. rewrite Ec1, elem_of_app, list_elem_of_singleton.
      intros [?|Heq]; [done|]. apply Hnb. rewrite <- Heq.
      apply list_elem_of_fmap. by exists b'. }
    { intros b1 b2 ? ?. apply Hsrc; by right. }
    split; [by rewrite Ec, Ec1, <- app_assoc|]. split; [|done].
    pose proof (Forall2_compose _ _ _ _ _ Hr1 Hr) as HF.
    eapply Forall2_impl; [exact HF|]. clear HF.
    intros lr lr' (lr1 & E & E'). simpl in E, E'. rewrite E', E, <- app_assoc.
    f_equal. unfold hist_cells. simpl. f_equal.
    apply map_ext_in. intros b' Hb'%list_elem_of_In. f_equal.
    assert (b'.1 ≠ b.2) as Hne by (apply Hsrc; [by right|by left]).
    apply hist_cell_ext.
    + eapply Forall2_impl; [exact Hr1|]. intros [lx rx] [ly ry] Exy.
      simpl in *. subst ry. by rewrite !row_get_app_other.
    + by rewrite row_get_app_other.
Qed.



Lemma assign_sub_Ok new a b df df' :
  assign_sub new a b df = Ok df' →
  Forall2 (λ lr lr', ∃ x y w, row_get a lr.2 = Some x ∧ row_get b lr.2 = Some y
                              ∧ cell_sub x y = Ok w ∧ lr'.2 = row_set new w lr.2)
          (rows df) (rows df').
Proof.
  unfold assign_sub. intros H.
  apply bind_Ok in H as ([] & _ & H). apply bind_Ok in H as ([] & _ & H).
  apply bind_Ok in H as (rs & Hrs & H). injection H as <-. simpl.
  apply mapM_Ok in Hrs. eapply Forall2_impl; [exact Hrs|].
  intros [l r] lr' Hlr; simpl in *.
  destruct (row_get a r) as [x|]; [|discriminate].
  destruct (row_get b r) as [y|]; [|discriminate].
  apply bind_Ok in Hlr as (w & Hw & Hlr). injection Hlr as <-. exists x, y, w. done.
Qed.

Lemma add_diffs_fold ds : ∀ df df',
  foldl (λ acc d, df ← acc; assign_sub d.1 d.2.1 d.2.2 df) (Ok df) ds = Ok df' →
  Forall2 (λ lr lr', subtracted ds lr.2 lr'.2) (rows df) (rows df').
Proof.
  induction ds as [|d ds IH]; intros df df' H; simpl in H.
  - injection H as <-. apply Forall2_same_length_lookup_2; [done|].
    intros i x y Hx Hy. rewrite Hx in Hy. by injection Hy as <-.
  - destruct (assign_sub d.1 d.2.1 d.2.2 df) as [df1|e] eqn:E1;
      [|by rewrite (foldl_Raise (λ df d, assign_sub d.1 d.2.1 d.2.2 df)) in H].
    apply assign_sub_Ok in E1. apply IH in H.
    pose proof (Forall2_compose _ _ _ _ _ E1 H) as HF.
    eapply Forall2_impl; [exact HF|]. clear.
    intros [l r] [l' r'] ([l1 r1] & (x & y & w & Hx & Hy & Hw & E) & Hs); simpl in *.
    subst r1. exists x, y, w. done.
Qed.

Lemma row_get_app_l c r e v : row_get c r = Some v → row_get c (r ++ e) = Some v.
Proof. intros H. by rewrite row_get_app, H. Qed.

Lemma row_get_app_r c r e : row_get c r = None → row_get c (r ++ e) = row_get c e.
Proof. intros H. by rewrite row_get_app, H. Qed.

Lemma row_get_app_fresh c r e : row_get c e = None → row_get c (r ++ e) = row_get c r.
Proof. intros H. rewrite row_get_app, H. by destruct (row_get c r). Qed.

Lemma well_formed_None df lr c : well_formed df → lr ∈ rows df → c ∉ columns df → row_get c lr.2 = None.
Proof. intros Hwf Hlr Hc. rewrite <- (Hwf _ Hlr) in Hc. by apply row_get_None. Qed.

Ltac each_elem H :=
  repeat (apply elem_of_cons in H as [->|H]); [..|by apply elem_of_nil in H].

Lemma row_get_hist_cells_None rs index blocks r c :
  c ∉ map snd blocks → row_get c (hist_cells rs index blocks r) = None.
Proof.
  intros Hc. apply row_get_None. unfold hist_cells.
  rewrite map_map. simpl. exact Hc.
Qed.

Lemma Forall2_elem_of_l {A B} (P : A → B → Prop) l k :
  Forall2 P l k → Forall2 (λ x y, x ∈ l ∧ P x y) l k.
Proof.
  induction 1 as [|x y l k Hxy _ IH]; constructor.
  - split; [by left|done].
  - eapply Forall2_impl; [exact IH|]. intros ? ? [? ?]. split; [by right|done].
Qed.

Lemma cell_sub_floats p q w : cell_sub (Flt p) (Flt q) = Ok w → w = Flt (p - q).
Proof. simpl. by intros [= <-]. Qed.

Lemma row_get_cons k v r c :
  row_get c ((k, v) :: r) = if decide (k = c) then Some v else row_get c r.
Proof. reflexivity. Qed.

Ltac row_lookup_in H :=
  repeat first
    [ rewrite row_get_set_eq in H
    | rewrite row_get_set_ne in H by done
    | rewrite row_get_cons in H
    | rewrite decide_True in H by done
    | rewrite decide_False in H by done ].

Ltac row_lookup :=
  repeat first
    [ rewrite row_get_set_eq
    | rewrite row_get_set_ne by done
    | rewrite row_get_cons
    | rewrite decide_True by done
    | rewrite decide_False by done ].

Lemma historical_row rs l l' (r r' : row) :
  (∀ b, b ∈ HIST_HOME ++ HIST_AWAY → row_get b.2 r = None) →
  subtracted DIFFS
    (r ++ hist_cells rs "HOME_TEAM_ID" HIST_HOME r
       ++ hist_cells rs "TEAM_ID_away" HIST_AWAY r) r' →
  historical_blocks rs (l, r) (l', r').
Proof.
  intros Hnone Hs.
  assert (∀ n, n ∈ map snd (HIST_HOME ++ HIST_AWAY) → row_get n r = None) as Hn.
  { intros n (b & -> & Hb)%list_elem_of_fmap. by apply Hnone. }
  clear Hnone. unfold historical_blocks, hist_cells, hist_cell in *. simpl fst; simpl snd.
  cbn [map HIST_HOME HIST_AWAY fst snd app] in Hs, Hn.
  set (R := r ++ _) in Hs.
  assert (∀ n, n ∈ map snd (HIST_HOME ++ HIST_AWAY) →
               row_get n R = row_get n (drop (length r) R)) as HR.
  { intros n Hin. unfold R. rewrite drop_app_length. apply row_get_app_r, Hn, Hin. }
  assert (∀ c v, row_get c r = Some v → row_get c R = Some v) as HRl.
  { intros c v Hc. by apply row_get_app_l. }
  unfold R in HR at 2. rewrite drop_app_length in HR. clearbody R.
  unfold DIFFS in Hs. cbn [subtracted fst snd] in Hs.
  repeat
    (destruct Hs as (x & y & w & Hx & Hy & Hw & Hs);
     row_lookup_in Hx; row_lookup_in Hy;
     rewrite HR in Hx, Hy by (apply (bool_decide_unpack (_ ∈ _)); by vm_compute);
     row_lookup_in Hx; row_lookup_in Hy;
     injection Hx as <-; injection Hy as <-;
     apply cell_sub_floats in Hw; subst w).
  subst r'.
  assert (∀ n, n ∈ map snd (HIST_HOME ++ HIST_AWAY) → n ∉ map fst DIFFS) as Hd.
  { apply Forall_forall. apply (bool_decide_unpack (Forall _ _)). by vm_compute. }
  repeat split.
  - intros c v Hc Hv.
    rewrite !row_get_set_ne
      by (intros <-; apply Hc; apply (bool_decide_unpack (_ ∈ _)); by vm_compute).
    by apply HRl.
  - intros b Hb. each_elem Hb; simpl fst; simpl snd; row_lookup;
      (rewrite HR by (apply (bool_decide_unpack (_ ∈ _)); by vm_compute));
      row_lookup; reflexivity.
  - intros b Hb. each_elem Hb; simpl fst; simpl snd; row_lookup;
      (rewrite HR by (apply (bool_decide_unpack (_ ∈ _)); by vm_compute));
      row_lookup; reflexivity.
  - intros d Hd'. each_elem Hd'; simpl fst; simpl snd; eexists _, _;
      (split; [|split]); row_lookup;
      try (rewrite HR by (apply (bool_decide_unpack (_ ∈ _)); by vm_compute));
      row_lookup; reflexivity.
Qed.

Lemma historical_blocks_hold df df' :
  historical_aggregator df = Ok df' →
  well_formed df → no_missing df →
  (∀ b, b ∈ HIST_HOME ++ HIST_AWAY → (b.2 ∉ columns df)) →
  Forall2 (historical_blocks (rows df)) (rows df) (rows df').
Proof.
  intros H Hwf Hnm Hfresh. unfold historical_aggregator in H.
  apply bind_Ok in H as (df1 & H1 & H). apply bind_Ok in H as (df2 & H2 & H3).
  apply add_hists_Ok in H1 as (Ec1 & Hr1 & Hwf1 & Hnm1); try done; cycle 1.
  { intros b Hb. split; [apply Hfresh, elem_of_app; by left|]. each_elem Hb; done. }
  { apply (bool_decide_unpack (NoDup _)). by vm_compute. }
  { intros b b' Hb Hb'. each_elem Hb; each_elem Hb'; done. }
  apply add_hists_Ok in H2 as (Ec2 & Hr2 & Hwf2 & Hnm2); try done; cycle 1.
  { intros b Hb. split; [|each_elem Hb; done].
    rewrite Ec1, elem_of_app. intros [Hin|Hin].
    - revert Hin. apply Hfresh, elem_of_app. by right.
    - assert (Forall (λ b, b.2 ∉ map snd HIST_HOME) HIST_AWAY) as HF
        by (apply (bool_decide_unpack (Forall _ _)); by vm_compute).
      rewrite Forall_forall in HF. by apply (HF b). }
  { apply (bool_decide_unpack (NoDup _)). by vm_compute. }
  { intros b b' Hb Hb'. each_elem Hb; each_elem Hb'; done. }
  apply add_diffs_fold in H3.
  pose proof (Forall2_compose _ _ _ _ _ (Forall2_elem_of_l _ _ _ Hr1)
                (Forall2_compose _ _ _ _ _ Hr2 H3)) as HF.
  eapply Forall2_impl; [exact HF|]. clear HF H3.
  intros [l r] [l' r'] ([l1 r1] & [Hin E1] & [l2 r2] & E2 & Hs); cbn [fst snd] in *.
  subst r1 r2. apply historical_row.
  - intros b Hb. eapply (well_formed_None df (l, r)); eauto.
  - rewrite <- app_assoc in Hs.
    replace (hist_cells (rows df1) "TEAM_ID_away" HIST_AWAY
               (r ++ hist_cells (rows df) "HOME_TEAM_ID" HIST_HOME r))
      with (hist_cells (rows df) "TEAM_ID_away" HIST_AWAY r) in Hs; [exact Hs|].
    unfold hist_cells at 1 3. apply map_ext_in. intros b Hb%list_elem_of_In.
    f_equal. symmetry.
    assert (∀ c, c ∈ "TEAM_ID_away" :: map fst HIST_AWAY → c ∉ map snd HIST_HOME) as Hc.
    { apply Forall_forall. apply (bool_decide_unpack (Forall _ _)). by vm_compute. }
    assert (b.1 ∈ "TEAM_ID_away" :: map fst HIST_AWAY) as Hb1.
    { right. apply list_elem_of_fmap. by exists b. }
    apply hist_cell_ext.
    + eapply Forall2_impl; [exact Hr1|]. intros [lx rx] [ly ry] Exy.
      cbn [fst snd] in *. subst ry.
      rewrite !row_get_app_fresh; [done|..];
        apply row_get_hist_cells_None, Hc; [done|by left].
    + apply row_get_app_fresh, row_get_hist_cells_None, Hc. by left.
Qed.

Ltac member := repeat first [apply list_elem_of_here | apply list_elem_of_further].

(** C6.  On a table whose rows are complete and that has no column named
    like a [HIST_*] column yet, the historical step keeps the rows in
    order and gives every row: under [HIST_PPG_homeTeam],
    [HIST_FGpercent_homeTeam], [HIST_FTpercent_homeTeam],
    [HIST_FG3percent_homeTeam], [HIST_APG_homeTeam] and
    [HIST_REB_homeTeam] the arithmetic mean of [PTS_home], [FG_PCT_home],
    [FT_PCT_home], [FG3_PCT_home], [AST_home] and [REB_home] over all rows
    of the table (whatever their date) with the same [HOME_TEAM_ID]; under
    the six [HIST_*] labels of the away side the mean of the away stat
    over all rows with the same [TEAM_ID_away]; and under each of
    [DIFF_HIST_PPG], [DIFF_HIST_FG], [DIFF_HIST_FT], [DIFF_HIST_FG3],
    [DIFF_HIST_APG] and [DIFF_HIST_REB] exactly the home [HIST_*] cell
    minus the away [HIST_*] cell of the row. *)
Theorem historical_means_and_differences df df' :
  historical_aggregator df = Ok df' →
  well_formed df → no_missing df →
  (∀ c, c ∈ ["HIST_PPG_homeTeam"; "HIST_FGpercent_homeTeam";
             "HIST_FTpercent_homeTeam"; "HIST_FG3percent_homeTeam";
             "HIST_APG_homeTeam"; "HIST_REB_homeTeam";
             "HIST_PPG_awayTeam"; "HIST_FGpercent_awayTeam";
             "HIST_FTpercent_awayTeam"; "HIST_FG3percent_awayTeam";
             "HIST_APG_awayTeam"; "HIST_REB_awayTeam"] → (c ∉ columns df)) →
  Forall2 (historical_of (rows df)) (rows df) (rows df').
Proof.
  intros H Hwf Hnm Hfresh.
  eapply Forall2_impl; [apply (historical_blocks_hold df df' H Hwf Hnm)|].
  - intros b Hb. apply Hfresh. each_elem Hb; cbn [snd]; member.
  - intros lr lr' (Hkeep & Hhome & Haway & Hdiff).
    unfold historical_of, hist_is, diff_is.
    split; [exact Hkeep|]. repeat split.
    + exact (Hhome ("PTS_home", "HIST_PPG_homeTeam") ltac:(member)).
    + exact (Hhome ("FG_PCT_home", "HIST_FGpercent_homeTeam") ltac:(member)).
    + exact (Hhome ("FT_PCT_home", "HIST_FTpercent_homeTeam") ltac:(member)).
    + exact (Hhome ("FG3_PCT_home", "HIST_FG3percent_homeTeam") ltac:(member)).
    + exact (Hhome ("AST_home", "HIST_APG_homeTeam") ltac:(member)).
    + exact (Hhome ("REB_home", "HIST_REB_homeTeam") ltac:(member)).
    + exact (Haway ("PTS_away", "HIST_PPG_awayTeam") ltac:(member)).
    + exact (Haway ("FG_PCT_away", "HIST_FGpercent_awayTeam") ltac:(member)).
    + exact (Haway ("FT_PCT_away", "HIST_FTpercent_awayTeam") ltac:(member)).
    + exact (Haway ("FG3_PCT_away", "HIST_FG3percent_awayTeam") ltac:(member)).
    + exact (Haway ("AST_away", "HIST_APG_awayTeam") ltac:(member)).
    + exact (Haway ("REB_away", "HIST_REB_awayTeam") ltac:(member)).
    + exact (Hdiff ("DIFF_HIST_PPG", ("HIST_PPG_homeTeam", "HIST_PPG_awayTeam"))
               ltac:(member)).
    + exact (Hdiff ("DIFF_HIST_FG",
                    ("HIST_FGpercent_homeTeam", "HIST_FGpercent_awayTeam"))
               ltac:(member)).
    + exact (Hdiff ("DIFF_HIST_FT",
                    ("HIST_FTpercent_homeTeam", "HIST_FTpercent_awayTeam"))
               ltac:(member)).
    + exact (Hdiff ("DIFF_HIST_FG3",
                    ("HIST_FG3percent_homeTeam", "HIST_FG3percent_awayTeam"))
               ltac:(member)).
    + exact (Hdiff ("DIFF_HIST_APG", ("HIST_APG_homeTeam", "HIST_APG_awayTeam"))
               ltac:(member)).
    + exact (Hdiff ("DIFF_HIST_REB", ("HIST_REB_homeTeam", "HIST_REB_awayTeam"))
               ltac:(member)).
Qed.

Lemma historical_means_and_differences_witness :
  ∃ df',
    historical_aggregator Samples.season = Ok df'
    ∧ group_values "HOME_TEAM_ID" "PTS_home" (Flt 1) (rows Samples.season)
      = [110; 120; 101]%Q
    ∧ group_values "TEAM_ID_away" "FG_PCT_away" (Flt 2) (rows Samples.season)
      = [2 # 5; 2 # 5; 1 # 2]%Q
    ∧ Forall2 (historical_of (rows Samples.season)) (rows Samples.season) (rows df').
Proof.
  eexists. split; [vm_compute; reflexivity|].
  split; [vm_compute; reflexivity|]. split; [vm_compute; reflexivity|].
  apply (historical_means_and_differences Samples.season).
  - vm_compute; reflexivity.
  - intros lr Hlr. each_elem Hlr; reflexivity.
  - intros lr Hlr. each_elem Hlr; reflexivity.
  - intros c Hc. apply (bool_decide_unpack (_ ∉ _)).
    each_elem Hc; by vm_compute.
Defined.

(** ** The model harness *)

(** ** The selection *)

Lemma Qle_bool_false p q : Qle_bool p q = false → (q < p)%Q.
Proof.
  intros H. apply Qnot_le_lt. intros Hle. apply Qle_bool_iff in Hle. congruence.
Qed.

Lemma argmax_step pre c best :
  argmax_ok pre best →
  argmax_ok (pre ++ [c])
    match cell_num c, best with
    | Some q, Some (_, b) => if negb (Qle_bool q b) then Some (length pre, q) else best
    | Some q, None => Some (length pre, q)
    | None, _ => best
    end.
Proof.
  intros Hbest.
  assert (∀ k x, (pre ++ [c]) !! k = Some x →
                 pre !! k = Some x ∧ (k < length pre)%nat ∨ k = length pre ∧ x = c) as Hsplit.
  { intros k x Hk. apply lookup_app_Some in Hk as [Hk|[Hge Hk]].
    - left. split; [done|]. by eapply lookup_lt_Some.
    - right. apply list_lookup_singleton_Some in Hk as [Hk ->]. split; [lia|done]. }
  destruct (cell_num c) as [q|] eqn:Ec.
  - destruct best as [[j b]|]; simpl in *.
    + destruct (Qle_bool q b) eqn:Eq; simpl.
      * destruct Hbest as ((cj & Hj & Hcj) & Hmax & Hfirst). split; [|split].
        -- exists cj. split; [|done]. by apply lookup_app_l_Some.
        -- intros k x v Hk Hv. apply Hsplit in Hk as [[Hk _]|[-> ->]]; [eauto|].
           rewrite Ec in Hv. injection Hv as <-. by apply Qle_bool_iff.
        -- intros k x v Hlt Hk Hv. apply Hsplit in Hk as [[Hk _]|[-> ->]]; [eauto|].
           apply lookup_lt_Some in Hj. lia.
      * apply Qle_bool_false in Eq.
        destruct Hbest as (_ & Hmax & _). split; [|split].
        -- exists c. split; [|done]. by rewrite lookup_app_r, Nat.sub_diag.
        -- intros k x v Hk Hv. apply Hsplit in Hk as [[Hk _]|[-> ->]].
           ++ apply Qlt_le_weak. eapply Qle_lt_trans; [eapply Hmax; eauto|done].
           ++ rewrite Ec in Hv. injection Hv as <-. apply Qle_refl.
        -- intros k x v Hlt Hk Hv. apply Hsplit in Hk as [[Hk _]|[-> ->]]; [|lia].
           eapply Qle_lt_trans; [eapply Hmax; eauto|done].
    + split; [|split].
      * exists c. split; [|done]. by rewrite lookup_app_r, Nat.sub_diag.
      * intros k x v Hk Hv. apply Hsplit in Hk as [[Hk _]|[-> ->]].
        -- rewrite (Hbest _ _ Hk) in Hv. discriminate.
        -- rewrite Ec in Hv. injection Hv as <-. apply Qle_refl.
      * intros k x v Hlt Hk Hv. apply Hsplit in Hk as [[Hk _]|[-> ->]]; [|lia].
        rewrite (Hbest _ _ Hk) in Hv. discriminate.
  - destruct best as [[j b]|]; simpl in *.
    + destruct Hbest as ((cj & Hj & Hcj) & Hmax & Hfirst). split; [|split].
      * exists cj. split; [|done]. by apply lookup_app_l_Some.
      * intros k x v Hk Hv. apply Hsplit in Hk as [[Hk _]|[-> ->]]; [eauto|congruence].
      * intros k x v Hlt Hk Hv. apply Hsplit in Hk as [[Hk _]|[-> ->]]; [eauto|congruence].
    + intros k x Hk. apply Hsplit in Hk as [[Hk _]|[-> ->]]; eauto.
Qed.

Lemma argmax_from_ok col : ∀ pre best,
  argmax_ok pre best → argmax_ok (pre ++ col) (argmax_from best (length pre) col).
Proof.
  induction col as [|c col IH]; intros pre best Hbest; simpl.
  - by rewrite app_nil_r.
  - rewrite (cons_middle c pre col), app_assoc.
    replace (S (length pre)) with (length (pre ++ [c])) by (rewrite length_app; simpl; lia).
    apply IH. by apply argmax_step.
Qed.

Lemma idxmax_Ok col i :
  idxmax col = Ok (Some i) → ∃ q, first_max col i q.
Proof.
  unfold idxmax. destruct col as [|c col]; [discriminate|].
  pose proof (argmax_from_ok (c :: col) [] None) as H. simpl app in H. simpl length in H.
  destruct (argmax_from None 0 (c :: col)) as [[j q]|]; [|discriminate].
  intros [= <-]. exists q. apply H. intros k x Hk. by rewrite lookup_nil in Hk.
Qed.

Lemma idxmax_None col :
  idxmax col = Ok None → ∀ k c, col !! k = Some c → cell_num c = None.
Proof.
  unfold idxmax. destruct col as [|c col]; [discriminate|].
  pose proof (argmax_from_ok (c :: col) [] None) as H. simpl app in H. simpl length in H.
  destruct (argmax_from None 0 (c :: col)) as [[j q]|]; [discriminate|].
  intros _. apply H. intros k x Hk. by rewrite lookup_nil in Hk.
Qed.

Lemma select_winner_Ok table name :
  select_winner table = Ok name →
  ∃ i e q, table !! i = Some e ∧ Classifiers e = name ∧ first_max (map AUC table) i q.
Proof.
  unfold select_winner. intros H. apply bind_Ok in H as ([i|] & Hi & H); [|discriminate].
  destruct (table !! i) as [e|] eqn:Ee; [|discriminate]. injection H as <-.
  apply idxmax_Ok in Hi as [q Hq]. by exists i, e, q.
Qed.

Section Binds.
Context (sk : sklearn).
#[local] Existing Instance M_ret.
#[local] Existing Instance M_bind.

Lemma M_bind_Ok {A B} (m : M sk A) (f : A → M sk B) w b w' :
  (m ≫= f) w = (Ok b, w') → ∃ a w1, m w = (Ok a, w1) ∧ f a w1 = (Ok b, w').
Proof.
  unfold mbind, M_bind. destruct (m w) as [[a|e] w1]; [eauto|discriminate].
Qed.

Lemma M_bind_inv {A B} (m : M sk A) (f : A → M sk B) w r w' :
  (m ≫= f) w = (r, w') →
  (∃ e, m w = (Raise e, w') ∧ r = Raise e) ∨ ∃ a w1, m w = (Ok a, w1) ∧ f a w1 = (r, w').
Proof.
  unfold mbind, M_bind. destruct (m w) as [[a|e0] w1]; [eauto|].
  intros [= <- <-]. left. eauto.
Qed.

Lemma M_bind_eq {A B} (m : M sk A) (f : A → M sk B) w a w1 :
  m w = (Ok a, w1) → (m ≫= f) w = f a w1.
Proof. unfold mbind, M_bind. by intros ->. Qed.

Lemma M_bind_raise {A B} (m : M sk A) (f : A → M sk B) w e w1 :
  m w = (Raise e, w1) → (m ≫= f) w = (Raise e, w1).
Proof. unfold mbind, M_bind. by intros ->. Qed.

(** *** Estimator objects *)

Lemma families_store (w : world sk) ref o m :
  heap w !! ref = Some o →
  map est_family (<[ref := Estimator (est_family o) (est_params o) m]> (heap w))
    = map est_family (heap w)
  ∧ map est_params (<[ref := Estimator (est_family o) (est_params o) m]> (heap w))
    = map est_params (heap w).
Proof.
  intros Ho. split.
  - change (map est_family ?l) with (est_family <$> l).
    rewrite list_fmap_insert. apply list_insert_id. by rewrite list_lookup_fmap, Ho.
  - change (map est_params ?l) with (est_params <$> l).
    rewrite list_fmap_insert. apply list_insert_id. by rewrite list_lookup_fmap, Ho.
Qed.

(** What a call of [fit] does to the state, whether it returns or raises. *)
Lemma fit_object_inv ref X y w r w' o :
  heap w !! ref = Some o →
  fit_object sk ref X y w = (r, w') →
  families w' = families w ∧ arguments w' = arguments w
  ∧ trace w' = trace w ++ [EvFit ref X y]
  ∧ (∀ i, i ≠ ref → heap w' !! i = heap w !! i)
  ∧ match r with
    | Ok _ => ∃ m, heap w' !! ref = Some (Estimator (est_family o) (est_params o) (Some m))
    | Raise _ => heap w' = heap w
    end.
Proof.
  intros Ho. unfold fit_object, deref, emit, learn, store, mbind, M_bind, families, arguments.
  rewrite Ho. simpl.
  destruct (random_state (est_params o)) as [seed|]; simpl.
  - destruct (fit sk _ _ _ X y) as [[m|e] g]; simpl; intros [= <- <-]; simpl.
    + destruct (families_store w ref o (Some m) Ho) as [-> ->].
      repeat split; try done.
      * intros i Hi. by apply list_lookup_insert_ne.
      * exists m. apply list_lookup_insert_eq. by eapply lookup_lt_Some.
    + done.
  - destruct (fit sk _ _ _ X y) as [[m|e] g]; simpl; intros [= <- <-]; simpl.
    + destruct (families_store w ref o (Some m) Ho) as [-> ->].
      repeat split; try done.
      * intros i Hi. by apply list_lookup_insert_ne.
      * exists m. apply list_lookup_insert_eq. by eapply lookup_lt_Some.
    + done.
Qed.

Lemma construct_eq f p w :
  construct sk f p w
  = (Ok (length (heap w)),
     World (heap w ++ [Estimator f p None]) (np_random w)
           (trace w ++ [EvNew (length (heap w)) f p])).
Proof. reflexivity. Qed.

(** The panel is built in order, after the objects that exist. *)
Lemma construct_all_eq panel : ∀ w,
  construct_all sk panel w
  = (Ok (seq (length (heap w)) (length panel)),
     World (heap w ++ map (λ fp, Estimator fp.1 fp.2 None) panel) (np_random w)
           (trace w ++ imap (λ i fp, EvNew (length (heap w) + i) fp.1 fp.2) panel)).
Proof.
  induction panel as [|fp panel IH]; intros w; simpl.
  - unfold mret, M_ret. destruct w. simpl. by rewrite !app_nil_r.
  - unfold mbind, M_bind. rewrite construct_eq, IH. simpl.
    rewrite length_app. simpl. rewrite Nat.add_1_r, Nat.add_0_r.
    rewrite <- !app_assoc. simpl. do 3 f_equal. f_equal.
    apply imap_ext. intros i x _. simpl. f_equal. lia.
Qed.
End Binds.

Section Evaluation.
Context (sk : sklearn).
#[local] Existing Instance M_ret.
#[local] Existing Instance M_bind.

Lemma predict_proba_object_state ref X w r w' :
  predict_proba_object sk ref X w = (r, w') → w' = w.
Proof.
  unfold predict_proba_object, deref, fitted_model, raise, mbind, M_bind, mret, M_ret.
  destruct (heap w !! ref) as [o|]; [|by intros [= _ <-]].
  destruct (has_predict_proba _ _); [|by intros [= _ <-]].
  destruct (est_model o); by intros [= _ <-].
Qed.

Lemma feature_importances_object_state ref w r w' :
  feature_importances_object sk ref w = (r, w') → w' = w.
Proof.
  unfold feature_importances_object, deref, fitted_model, raise, mbind, M_bind, mret, M_ret.
  destruct (heap w !! ref) as [o|]; [|by intros [= _ <-]].
  destruct (has_feature_importances _); [|by intros [= _ <-]].
  destruct (est_model o); by intros [= _ <-].
Qed.

Lemma predict_object_state ref X w r w' :
  predict_object sk ref X w = (r, w') → w' = w.
Proof.
  unfold predict_object, deref, fitted_model, raise, mbind, M_bind, mret, M_ret.
  destruct (heap w !! ref) as [o|]; [|by intros [= _ <-]].
  destruct (est_model o); by intros [= _ <-].
Qed.

Lemma families_lookup (w : world sk) ref o :
  heap w !! ref = Some o → families w !! ref = Some (est_family o).
Proof.
  intros H. unfold families. change (map est_family ?l) with (est_family <$> l).
  by rewrite list_lookup_fmap, H.
Qed.

Lemma families_lookup_inv (w : world sk) ref f :
  families w !! ref = Some f → ∃ o, heap w !! ref = Some o ∧ est_family o = f.
Proof.
  unfold families. change (map est_family ?l) with (est_family <$> l).
  rewrite list_lookup_fmap. destruct (heap w !! ref) as [o|]; [|discriminate].
  intros [= <-]. eauto.
Qed.

(** One turn of the panel loop: it calls [fit] once, on the split, leaves
    the classes and arguments of all objects as they are, and names its
    row after the class of its object. *)
Lemma evaluate_inv sp cls w r w' o :
  heap w !! cls = Some o →
  evaluate sk sp cls w = (r, w') →
  families w' = families w ∧ arguments w' = arguments w
  ∧ trace w' = trace w ++ [EvFit cls (X_train sp) (y_train sp)]
  ∧ ∀ e, r = Ok e → Classifiers e = class_name (est_family o).
Proof.
  intros Ho H. unfold evaluate in H.
  apply M_bind_inv in H as [(e & H & ->)|([] & w1 & H1 & H)].
  { destruct (fit_object_inv sk _ _ _ _ _ _ _ Ho H) as (? & ? & ? & _). by repeat split. }
  destruct (fit_object_inv sk _ _ _ _ _ _ _ Ho H1) as (Hf & Ha & Ht & _ & m & Hm).
  apply M_bind_inv in H as [(e & H & ->)|(yproba & w2 & H2 & H)].
  { apply predict_proba_object_state in H as ->. by repeat split. }
  apply predict_proba_object_state in H2 as ->.
  unfold lift, deref, mbind, M_bind, mret, M_ret in H. rewrite Hm in H.
  destruct (roc_curve sk _ _) as [curve|e]; [|injection H as <- <-; by repeat split].
  destruct (roc_auc_score sk _ _) as [a|e]; injection H as <- <-; repeat split; try done.
  by intros e [= <-].
Qed.

Lemma panel_loop_inv sp refs : ∀ table w r w',
  (∀ ref, ref ∈ refs → is_Some (heap w !! ref)) →
  panel_loop sk sp refs table w = (r, w') →
  families w' = families w ∧ arguments w' = arguments w
  ∧ ∃ called,
      called `prefix_of` refs
      ∧ trace w' = trace w ++ panel_fits sp called
      ∧ ∀ t, r = Ok t →
          called = refs
          ∧ ∃ es, t = table ++ es
                  ∧ Forall2 (λ ref e, ∃ f, families w !! ref = Some f
                                           ∧ Classifiers e = class_name f) refs es.
Proof.
  induction refs as [|cls refs IH]; intros table w r w' Hrefs H; simpl in H.
  - injection H as <- <-. repeat split; try done. exists []. split; [done|].
    split; [by rewrite app_nil_r|]. intros t [= <-]. split; [done|].
    exists []. split; [by rewrite app_nil_r|constructor].
  - destruct (Hrefs cls ltac:(by left)) as [o Ho].
    apply M_bind_inv in H as [(e & H & ->)|(ev & w1 & H1 & H)].
    + destruct (evaluate_inv _ _ _ _ _ _ Ho H) as (? & ? & ? & _).
      repeat split; try done. exists [cls]. split; [|split; [done|discriminate]].
      by apply prefix_cons, prefix_nil.
    + destruct (evaluate_inv _ _ _ _ _ _ Ho H1) as (Hf & Ha & Ht & Hn).
      apply IH in H as (Hf' & Ha' & called & Hp & Ht' & Hok).
      2:{ intros ref Hin. destruct (Hrefs ref ltac:(by right)) as [o' Ho'].
          apply families_lookup in Ho'. rewrite <- Hf in Ho'.
          apply families_lookup_inv in Ho' as (o'' & -> & _). eauto. }
      split; [congruence|]. split; [congruence|].
      exists (cls :: called). split; [by apply prefix_cons|].
      split; [rewrite Ht', Ht, <- app_assoc; done|].
      intros t Et. destruct (Hok t Et) as (-> & es & -> & HF). split; [done|].
      exists (ev :: es). split; [by rewrite <- app_assoc|].
      constructor.
      * exists (est_family o). split; [by apply families_lookup|]. by apply Hn.
      * eapply Forall2_impl; [exact HF|]. intros ref e (f & Hfam & Hc).
        exists f. split; [congruence|done].
Qed.
End Evaluation.

Section Selection.
Context (sk : sklearn).
#[local] Existing Instance M_ret.
#[local] Existing Instance M_bind.

Lemma names_in_panel_order (fams pre : list family) (panel : list (family * params)) es :
  fams = pre ++ map fst panel →
  Forall2 (λ ref e, ∃ f, fams !! ref = Some f ∧ Classifiers e = class_name f)
          (seq (length pre) (length panel)) es →
  map Classifiers es = map (λ fp, class_name fp.1) panel.
Proof.
  intros -> HF. apply list_eq_same_length with (length panel).
  - apply length_map.
  - rewrite length_map. apply Forall2_length in HF. rewrite length_seq in HF. done.
  - intros i x y Hi Hx Hy.
    change (map ?f ?l) with (f <$> l) in Hx. change (map ?f ?l) with (f <$> l) in Hy.
    rewrite list_lookup_fmap in Hx. rewrite list_lookup_fmap in Hy.
    destruct (es !! i) as [e|] eqn:Ee; [|discriminate]. injection Hx as <-.
    destruct (panel !! i) as [fp|] eqn:Ep; [|discriminate]. injection Hy as <-.
    destruct (Forall2_lookup_r _ _ _ _ _ HF Ee) as (ref & Hr & f & Hf & ->).
    apply lookup_seq in Hr as [-> _].
    rewrite lookup_app_r in Hf by lia.
    replace (length pre + i - length pre)%nat with i in Hf by lia.
    change (map ?f ?l) with (f <$> l) in Hf. rewrite list_lookup_fmap, Ep in Hf.
    by injection Hf as <-.
Qed.

(** What a successful selection has done. *)
Lemma model_selection_Ok X y w sp name w' :
  model_selection sk X y w = (Ok (sp, name), w') →
  train_test_split sk X y = Ok sp
  ∧ families w' = families w ++ map fst PANEL
  ∧ arguments w' = arguments w ++ map snd PANEL
  ∧ ∃ result_table,
      map Classifiers result_table = map (λ fp, class_name fp.1) PANEL
      ∧ select_winner result_table = Ok name
      ∧ trace w' = trace w ++ panel_news (length (heap w))
                   ++ panel_fits sp (seq (length (heap w)) (length PANEL))
                   ++ [EvBarChart (bars result_table)].
Proof.
  unfold model_selection, panel_news. generalize PANEL. intros panel H.
  apply M_bind_Ok in H as (sp' & w0 & Hsp & H).
  unfold lift in Hsp. injection Hsp as Hsp <-.
  apply M_bind_Ok in H as (refs & w1 & Hc & H).
  rewrite construct_all_eq in Hc. injection Hc as <- <-.
  apply M_bind_Ok in H as (table & w2 & Hl & H).
  apply panel_loop_inv in Hl as (Hf & Ha & called & _ & Ht & Hok); cycle 1.
  { intros ref Hin. apply elem_of_seq in Hin. simpl.
    apply lookup_lt_is_Some. rewrite length_app, length_map. lia. }
  destruct (Hok table eq_refl) as (-> & es & -> & HF). simpl in HF.
  apply M_bind_Ok in H as ([] & w3 & He & H). unfold emit in He. injection He as <-.
  apply M_bind_Ok in H as (final & w4 & Hw & H). unfold lift in Hw.
  injection Hw as Hw <-. injection H as -> <- <-.
  split; [done|]. unfold families, arguments in *. simpl in *.
  rewrite Hf, Ha, !map_app, !map_map. simpl.
  split; [done|]. split; [done|].
  exists es. split; [|split; [done|]].
  - eapply (names_in_panel_order _ (map est_family (heap w))); [|rewrite length_map; exact HF].
    rewrite map_app, map_map. done.
  - rewrite Ht. simpl. by rewrite <- !app_assoc.
Qed.

(** C3.  The name that the selection returns is that of a row of the
    result table; the rows of the table are the sixteen candidates of the
    panel, in panel order, as the bar chart shows them; the AUC of the
    chosen row is
    a number, no row has a greater one, and every row before it has a
    strictly smaller one: of several rows with the greatest AUC the first
    in panel order is chosen. *)
Theorem winner_is_first_maximum X y w sp name w' :
  model_selection sk X y w = (Ok (sp, name), w') →
  ∃ result_table i q,
    last (trace w') = Some (EvBarChart (bars result_table))
    ∧ map Classifiers result_table
      = ["ExtraTreeClassifier"; "DecisionTreeClassifier"; "MLPClassifier";
         "KNeighborsClassifier"; "AdaBoostClassifier";
         "GradientBoostingClassifier"; "BaggingClassifier";
         "RandomForestClassifier"; "BernoulliNB"; "GaussianNB";
         "LinearDiscriminantAnalysis"; "LogisticRegression";
         "LogisticRegressionCV"; "NuSVC"; "SVC"; "XGBClassifier"]
    ∧ (∃ e, result_table !! i = Some e ∧ Classifiers e = name
            ∧ cell_num (AUC e) = Some q)
    ∧ (∀ j e b, result_table !! j = Some e → cell_num (AUC e) = Some b → (b <= q)%Q)
    ∧ (∀ j e b, (j < i)%nat → result_table !! j = Some e →
                cell_num (AUC e) = Some b → (b < q)%Q).
Proof.
  intros H. apply model_selection_Ok in H as (_ & _ & _ & table & Hn & Hw & Ht).
  apply select_winner_Ok in Hw as (i & e & q & He & Hname & (c & Hc & Hq) & Hmax & Hfirst).
  change (map AUC table) with (AUC <$> table) in *.
  rewrite list_lookup_fmap, He in Hc. injection Hc as <-.
  exists table, i, q. repeat split.
  - rewrite Ht, !app_assoc. apply last_snoc.
  - exact Hn.
  - eauto.
  - intros j e' b He' Hb. apply (Hmax j (AUC e')); [|done].
    by rewrite list_lookup_fmap, He'.
  - intros j e' b Hlt He' Hb. apply (Hfirst j (AUC e')); [done| |done].
    by rewrite list_lookup_fmap, He'.
Qed.
End Selection.

Section Report.
Context (sk : sklearn).
#[local] Existing Instance M_ret.
#[local] Existing Instance M_bind.


Lemma emit_eq ev (w : world sk) :
  emit sk ev w = (Ok (), World (heap w) (np_random w) (trace w ++ [ev])).
Proof. reflexivity. Qed.

Lemma predict_object_eq ref X (w : world sk) f p m :
  heap w !! ref = Some (Estimator f p (Some m)) →
  predict_object sk ref X w = (Ok (predict sk m X), w).
Proof.
  intros Ho. unfold predict_object, deref, fitted_model, mbind, M_bind, mret, M_ret.
  by rewrite Ho.
Qed.

Lemma predict_proba_object_eq ref X (w : world sk) f p m :
  heap w !! ref = Some (Estimator f p (Some m)) →
  predict_proba_object sk ref X w
  = (if has_predict_proba f p then Ok (predict_proba sk m X)
     else Raise (AttributeError "predict_proba"), w).
Proof.
  intros Ho. unfold predict_proba_object, deref, fitted_model, raise, mbind, M_bind,
    mret, M_ret.
  rewrite Ho. simpl. by destruct (has_predict_proba f p).
Qed.

Lemma feature_importances_object_eq ref (w : world sk) f p m :
  heap w !! ref = Some (Estimator f p (Some m)) →
  feature_importances_object sk ref w
  = (if has_feature_importances f then Ok (feature_importances sk m)
     else Raise (AttributeError "feature_importances_"), w).
Proof.
  intros Ho. unfold feature_importances_object, deref, fitted_model, raise, mbind,
    M_bind, mret, M_ret.
  rewrite Ho. simpl. by destruct (has_feature_importances f).
Qed.

Lemma lift_eq {A} (r : result A) (w : world sk) : lift sk r w = (r, w).
Proof. reflexivity. Qed.

(** The report on a fitted object: it changes no object and draws no
    random number; without [predict_proba] it raises before any output;
    with it but without [feature_importances_] it raises after the banner
    and the accuracy. *)
Lemma report_inv sp features final w r w' f p m :
  heap w !! final = Some (Estimator f p (Some m)) →
  report sk sp features final w = (r, w') →
  heap w' = heap w ∧ np_random w' = np_random w
  ∧ ∃ outs, trace w' = trace w ++ outs
      ∧ Forall (λ ev, is_output ev = true) outs
      ∧ (has_predict_proba f p = false →
           r = Raise (AttributeError "predict_proba") ∧ outs = [])
      ∧ (has_predict_proba f p = true → has_feature_importances f = false →
           r = Raise (AttributeError "feature_importances_")
           ∧ outs = [EvBanner;
                     EvAccuracy (accuracy_score sk (y_test sp) (predict sk m (X_test sp)))])
      ∧ (has_feature_importances f = false →
           ∃ e, r = Raise e ∧ Forall (λ ev, is_late_output ev = false) outs).
Proof.
  intros Ho H. unfold report in H.
  erewrite M_bind_eq in H by (by eapply predict_object_eq).
  destruct (has_predict_proba f p) eqn:Epp.
  2:{ erewrite M_bind_raise in H
        by (erewrite predict_proba_object_eq by exact Ho; by rewrite Epp).
      injection H as <- <-. repeat split; try done. exists []. rewrite app_nil_r.
      repeat split; try done. intros _. eexists. split; [done|constructor]. }
  erewrite M_bind_eq in H
    by (erewrite predict_proba_object_eq by exact Ho; by rewrite Epp).
  erewrite M_bind_eq in H by apply emit_eq.
  erewrite M_bind_eq in H by apply emit_eq.
  destruct (has_feature_importances f) eqn:Efi.
  2:{ erewrite M_bind_raise in H
        by (erewrite feature_importances_object_eq by exact Ho; by rewrite Efi).
      injection H as <- <-. cbn [heap np_random trace]. repeat split; try done.
      eexists. split; [by rewrite <- app_assoc|].
      repeat split; try done.
      - by repeat constructor.
      - intros _. eexists. split; [done|]. by repeat constructor. }
  erewrite M_bind_eq in H
    by (erewrite feature_importances_object_eq by exact Ho; by rewrite Efi).
  destruct (ranked features _) as [imp|e] eqn:Er.
  2:{ erewrite M_bind_raise in H by apply lift_eq.
      injection H as <- <-. cbn [heap np_random trace]. repeat split; try done.
      eexists. split; [by rewrite <- app_assoc|].
      repeat split; try done. by repeat constructor. }
  erewrite M_bind_eq in H by apply lift_eq.
  erewrite M_bind_eq in H by apply emit_eq.
  erewrite M_bind_eq in H by apply emit_eq.
  destruct (roc_curve sk (y_test sp) (predict_proba sk m (X_test sp))) as [curve|e] eqn:Ec.
  2:{ erewrite M_bind_raise in H by apply lift_eq.
      injection H as <- <-. cbn [heap np_random trace]. repeat split; try done.
      eexists. split; [by rewrite <- !app_assoc|].
      repeat split; try done. by repeat constructor. }
  erewrite M_bind_eq in H by apply lift_eq.
  destruct (roc_auc_score sk (y_test sp) (predict_proba sk m (X_test sp))) as [a|e] eqn:Ea.
  2:{ erewrite M_bind_raise in H by apply lift_eq.
      injection H as <- <-. cbn [heap np_random trace]. repeat split; try done.
      eexists. split; [by rewrite <- !app_assoc|].
      repeat split; try done. by repeat constructor. }
  erewrite M_bind_eq in H by apply lift_eq.
  erewrite M_bind_eq in H by apply emit_eq.
  erewrite M_bind_eq in H
    by (erewrite feature_importances_object_eq by exact Ho; by rewrite Efi).
  erewrite M_bind_eq in H by apply emit_eq.
  rewrite emit_eq in H. injection H as <- <-.
  cbn [heap np_random trace]. repeat split; try done.
  eexists. split; [by rewrite <- !app_assoc|].
  repeat split; try done. by repeat constructor.
Qed.

(** [fit] on an object, in full: which generator it draws from, what
    becomes of the object and of the global generator. *)
Lemma fit_object_eq ref X y (w : world sk) o :
  heap w !! ref = Some o →
  fit_object sk ref X y w
  = let learnt :=
      match random_state (est_params o) with
      | Some seed =>
          ((fit sk (est_family o) (est_params o) (RandomState sk seed) X y).1, np_random w)
      | None => fit sk (est_family o) (est_params o) (np_random w) X y
      end in
    match learnt.1 with
    | Ok m =>
        (Ok (), World (<[ref := Estimator (est_family o) (est_params o) (Some m)]> (heap w))
                      learnt.2 (trace w ++ [EvFit ref X y]))
    | Raise e => (Raise e, World (heap w) learnt.2 (trace w ++ [EvFit ref X y]))
    end.
Proof.
  intros Ho. unfold fit_object, deref, emit, learn, store, mbind, M_bind.
  rewrite Ho. cbn [heap np_random trace].
  destruct (random_state (est_params o)) as [seed|]; cbn [fst snd].
  - by destruct (fit sk _ _ _ X y).1.
  - by destruct (fit sk _ _ _ X y).1.
Qed.

(** The rebuilt winner: a new object of the class that the name is bound
    to, built without arguments and fitted on the training part of the
    split with draws from the global generator; the objects that existed
    stay as they were. *)
Lemma explain_inv sp features name w r w' f :
  GLOBALS !! name = Some f →
  explain sk sp features name w = (r, w') →
  let final := length (heap w) in
  let learnt := fit sk f defaults (np_random w) (X_train sp) (y_train sp) in
  (∀ i o, heap w !! i = Some o → heap w' !! i = Some o)
  ∧ np_random w' = learnt.2
  ∧ ∃ outs,
      trace w' = trace w ++ EvNew final f defaults
                   :: EvFit final (X_train sp) (y_train sp) :: outs
      ∧ match learnt.1 with
        | Raise e =>
            r = Raise e ∧ outs = []
            ∧ heap w' = heap w ++ [Estimator f defaults None]
        | Ok m =>
            heap w' = heap w ++ [Estimator f defaults (Some m)]
            ∧ report sk sp features final
                (World (heap w ++ [Estimator f defaults (Some m)]) learnt.2
                       (trace w ++ [EvNew final f defaults;
                                    EvFit final (X_train sp) (y_train sp)]))
              = (r, w')
        end.
Proof.
  intros Hf H final learnt. unfold explain, rebuild, eval_class in H. rewrite Hf in H.
  erewrite M_bind_eq in H by (erewrite M_bind_eq by reflexivity; apply construct_eq).
  fold final in H. set (w1 := World _ _ _) in H.
  assert (heap w1 !! final = Some (Estimator f defaults None)) as Ho
    by (by apply list_lookup_middle).
  pose proof (fit_object_eq final (X_train sp) (y_train sp) w1 _ Ho) as Efit.
  cbn [est_params est_family defaults random_state np_random heap trace w1] in Efit.
  fold defaults in Efit. fold learnt in Efit. cbv zeta in Efit.
  destruct learnt as [[m|e] g] eqn:El; cbn [fst snd] in Efit |- *.
  - erewrite M_bind_eq in H by exact Efit.
    replace (<[final:=Estimator f defaults (Some m)]> (heap w ++ [Estimator f defaults None]))
      with (heap w ++ [Estimator f defaults (Some m)]) in H; cycle 1.
    { unfold final. rewrite insert_app_r_alt by lia. by rewrite Nat.sub_diag. }
    rewrite <- app_assoc in H. cbn [app] in H.
    assert ((heap w ++ [Estimator f defaults (Some m)]) !! final
            = Some (Estimator f defaults (Some m))) as Ho'
      by (by apply list_lookup_middle).
    pose proof H as Hrep.
    apply report_inv with (f := f) (p := defaults) (m := m) in H as (Hh & Hg & outs & Ht & _);
      [|exact Ho'].
    cbn [heap np_random trace] in Hh, Hg, Ht. rewrite Hh, Hg. repeat split.
    + intros i o Hi. by apply lookup_app_l_Some.
    + exists outs. rewrite Ht, <- app_assoc. done.
  - erewrite M_bind_raise in H by exact Efit.
    injection H as <- <-. cbn [heap np_random trace]. repeat split.
    + intros i o Hi. by apply lookup_app_l_Some.
    + exists []. by rewrite <- app_assoc.
Qed.
End Report.

Section FinalModel.
Context (sk : sklearn).
#[local] Existing Instance M_ret.
#[local] Existing Instance M_bind.

Lemma panel_loop_app sp pre : ∀ post table w t1 w1,
  panel_loop sk sp pre table w = (Ok t1, w1) →
  panel_loop sk sp (pre ++ post) table w = panel_loop sk sp post t1 w1.
Proof.
  induction pre as [|cls pre IH]; intros post table w t1 w1 H; simpl in *.
  - by injection H as <- <-.
  - apply M_bind_Ok in H as (e & w0 & He & H).
    erewrite M_bind_eq by exact He. by apply IH.
Qed.

Lemma select_winner_all_missing table :
  (∀ e, e ∈ table → cell_num (AUC e) = None) → ∃ e, select_winner table = Raise e.
Proof.
  intros Hnan. unfold select_winner, idxmax.
  destruct (map AUC table) as [|c col] eqn:E; [by eexists|].
  pose proof (argmax_from_ok (c :: col) [] None) as H. simpl app in H. simpl length in H.
  destruct (argmax_from None 0 (c :: col)) as [[j q]|]; [|by eexists].
  exfalso. destruct H as ((x & Hx & Hq) & _).
  { intros k x Hk. by rewrite lookup_nil in Hk. }
  rewrite <- E in Hx. change (map AUC table) with (AUC <$> table) in Hx.
  rewrite list_lookup_fmap in Hx. destruct (table !! j) as [e|] eqn:Ee; [|discriminate].
  injection Hx as <-. rewrite Hnan in Hq; [discriminate|].
  by eapply list_elem_of_lookup_2.
Qed.

(** C4, as the script has it.  When the evaluation of a candidate raises
    (its [fit], its [predict_proba] or the scoring), the panel loop raises
    the same exception there and then: the candidates after it are not
    evaluated and nothing is ranked.  Among recorded candidates one whose
    AUC is missing is never chosen, and when the AUC of every recorded
    candidate is missing the selection raises. *)
Theorem failing_candidate_aborts_the_run sp pre cls post table w t1 w1 e w2 :
  panel_loop sk sp pre table w = (Ok t1, w1) →
  evaluate sk sp cls w1 = (Raise e, w2) →
  panel_loop sk sp (pre ++ cls :: post) table w = (Raise e, w2)
  ∧ (∀ result_table name,
       select_winner result_table = Ok name →
       ∃ i r q, result_table !! i = Some r ∧ Classifiers r = name
                ∧ cell_num (AUC r) = Some q)
  ∧ (∀ result_table,
       (∀ r, r ∈ result_table → cell_num (AUC r) = None) →
       ∃ e', select_winner result_table = Raise e').
Proof.
  intros Hpre Hcls. split; [|split].
  - rewrite (panel_loop_app _ _ _ _ _ _ _ Hpre). simpl.
    erewrite M_bind_raise; [reflexivity|exact Hcls].
  - intros table' name Hw.
    apply select_winner_Ok in Hw as (i & r & q & Hr & Hn & (c & Hc & Hq) & _).
    change (map AUC table') with (AUC <$> table') in Hc.
    rewrite list_lookup_fmap, Hr in Hc. injection Hc as <-. by exists i, r, q.
  - apply select_winner_all_missing.
Qed.



(** C9, as the script has it.  When the class of the winner has no
    [feature_importances_], the report raises and shows no importance
    ranking, no ROC chart, no importance chart, and saves no model.  If
    the fit of the rebuilt object returns and the object has
    [predict_proba], what is raised is Python's [AttributeError] for the
    attribute [feature_importances_], after the banner and the accuracy
    have been printed. *)
Theorem missing_importances_raise_attribute_error sp features name f w r w' :
  GLOBALS !! name = Some f →
  has_feature_importances f = false →
  explain sk sp features name w = (r, w') →
  let final := length (heap w) in
  let learnt :=
    fit sk f (Params None false) (np_random w) (X_train sp) (y_train sp) in
  ∃ e outs,
    r = Raise e
    ∧ trace w' = trace w ++ EvNew final f (Params None false)
                   :: EvFit final (X_train sp) (y_train sp) :: outs
    ∧ Forall (λ ev, is_late_output ev = false) outs
    ∧ (is_ok learnt.1 = true → has_predict_proba f (Params None false) = true →
         e = AttributeError "feature_importances_"
         ∧ exn_class e = "AttributeError"
         ∧ ∃ acc, outs = [EvBanner; EvAccuracy acc]).
Proof.
  intros Hf Hfi H. change (Params None false) with defaults. intros final learnt.
  destruct (explain_inv sk _ _ _ _ _ _ _ Hf H) as (_ & _ & outs & Htr & Hl).
  fold final learnt in Htr, Hl.
  destruct learnt.1 as [m|e].
  - destruct Hl as [_ Hrep].
    eapply report_inv in Hrep as (_ & _ & outs' & Ht' & _ & _ & Hpp & Hlate);
      [|by apply list_lookup_middle].
    cbn [trace] in Ht'. rewrite Htr in Ht'.
    rewrite (cons_middle (EvNew _ _ _)), (cons_middle (EvFit _ _ _)), !app_assoc in Ht'.
    rewrite <- !app_assoc in Ht'. simpl in Ht'.
    apply app_inv_head in Ht'. injection Ht' as ->.
    destruct (Hlate Hfi) as (e & -> & Hl'). exists e, outs'.
    repeat split; try done.
    + destruct (Hpp H1 Hfi) as [[= ->] _]. done.
    + destruct (Hpp H1 Hfi) as [[= ->] _]. done.
    + destruct (Hpp H1 Hfi) as [_ ->]. eauto.
  - destruct Hl as (-> & -> & _). exists e, []. repeat split; try done.
Qed.
End FinalModel.

Lemma winner_is_first_maximum_witness :
  ∃ w' result_table,
    model_selection (Samples.toy []) Samples.X Samples.y (start (Samples.toy []) 0)
      = (Ok (Samples.the_split, "ExtraTreeClassifier"), w')
    ∧ last (trace w') = Some (EvBarChart (bars result_table))
    ∧ length result_table = 16%nat.
Proof.
  set (out := model_selection (Samples.toy []) Samples.X Samples.y
                (start (Samples.toy []) 0)).
  assert (out = (Ok (Samples.the_split, "ExtraTreeClassifier"), out.2)) as E
    by (vm_compute; reflexivity).
  destruct (winner_is_first_maximum _ _ _ _ _ _ _ E) as (table & i & q & H1 & H2 & _).
  exists out.2, table. split; [exact E|]. split; [exact H1|].
  apply (f_equal length) in H2. rewrite length_map in H2. exact H2.
Defined.

(** C4, refuted as stated.  With a scikit-learn in which the fit of the
    k-nearest-neighbours candidate alone fails, the claim has the run go on
    with the fifteen other candidates.  The script stops: the selection
    raises the exception of that fit, and of the sixteen candidates only
    the first four have been fitted. *)
Lemma one_failing_candidate_is_fatal :
  let sk := Samples.toy [KNeighborsClassifier] in
  let out := model_selection sk Samples.X Samples.y (start sk 0) in
  out.1 = Raise (ValueError "fit failed")
  ∧ omap (λ ev, match ev with EvFit ref _ _ => Some ref | _ => None end) (trace out.2)
    = [0; 1; 2; 3]%nat
  ∧ forallb (λ f, bool_decide (class_name f = "KNeighborsClassifier")
                  || is_ok (fit sk f defaults 0 (X_train Samples.the_split)
                                (y_train Samples.the_split)).1) FAMILIES = true.
Proof. vm_compute. repeat split; reflexivity. Qed.

Lemma failing_candidate_aborts_the_run_witness :
  let sk := Samples.toy [KNeighborsClassifier] in
  ∃ w2, panel_loop sk Samples.the_split ([0; 1; 2]%nat ++ 3%nat :: seq 4 12) []
          (Samples.built [KNeighborsClassifier])
        = (Raise (ValueError "fit failed"), w2).
Proof.
  intros sk.
  set (o1 := panel_loop sk Samples.the_split [0; 1; 2]%nat []
               (Samples.built [KNeighborsClassifier])).
  assert (o1 = (Ok (ok_or [] o1.1), o1.2)) as E1
    by (vm_compute; reflexivity).
  set (o2 := evaluate sk Samples.the_split 3 o1.2).
  assert (o2 = (Raise (ValueError "fit failed"), o2.2)) as E2
    by (vm_compute; reflexivity).
  exists o2.2.
  exact (proj1 (failing_candidate_aborts_the_run sk Samples.the_split
                  [0; 1; 2]%nat 3%nat (seq 4 12) [] _ _ _ _ _ E1 E2)).
Defined.



(** C9, refuted as stated.  The winner without feature importances
    (k-nearest neighbours) makes the report raise [AttributeError]; so does
    the support-vector winner, for another reason, the lack of
    [predict_proba].  The two failures have the same class: a caller
    cannot tell by the type of the error that explainability is
    unsupported. *)
Lemma unsupported_explainability_shares_its_class :
  let sk := Samples.toy [] in
  let failure name :=
    (explain sk Samples.the_split (columns Samples.X) name (Samples.built [])).1 in
  failure "KNeighborsClassifier" = Raise (AttributeError "feature_importances_")
  ∧ failure "SVC" = Raise (AttributeError "predict_proba")
  ∧ exn_class (AttributeError "feature_importances_")
    = exn_class (AttributeError "predict_proba").
Proof. vm_compute. repeat split; reflexivity. Qed.

Lemma missing_importances_raise_attribute_error_witness :
  let sk := Samples.toy [] in
  ∃ w' acc,
    explain sk Samples.the_split (columns Samples.X) "KNeighborsClassifier"
      (Samples.built [])
    = (Raise (AttributeError "feature_importances_"), w')
    ∧ trace w' = trace (Samples.built [])
                 ++ [EvNew 16 KNeighborsClassifier defaults;
                     EvFit 16 (X_train Samples.the_split) (y_train Samples.the_split);
                     EvBanner; EvAccuracy acc].
Proof.
  intros sk.
  set (o := explain sk Samples.the_split (columns Samples.X) "KNeighborsClassifier"
              (Samples.built [])).
  assert (o = (o.1, o.2)) as E by (by destruct o).
  destruct (missing_importances_raise_attribute_error sk _ _ "KNeighborsClassifier"
              KNeighborsClassifier _ _ _ eq_refl eq_refl E)
    as (e & outs & Hr & Ht & _ & Hfi).
  destruct Hfi as (-> & _ & acc & ->); [vm_compute; reflexivity|reflexivity|].
  exists o.2, acc. split; [rewrite E at 1; by f_equal|exact Ht].
Defined.


(** ** Further properties of the script *)





(** X3.  The label vector goes with the feature matrix row by row: [y]
    has, under the label of every row of the table, the cell of the row
    under [HOME_TEAM_WINS], and [X] has the same rows under the same
    labels, in the same order, without the thirteen dropped columns. *)
Theorem labels_follow_the_features df X y :
  leakage_filter df = Ok (X, y) →
  map fst y = labels df
  ∧ labels X = labels df
  ∧ Forall2 (λ lr lv, row_get "HOME_TEAM_WINS" lr.2 = Some lv.2) (rows df) y
  ∧ Forall2 (λ lr lx, ∀ c,
               c ∉ ["HOME_TEAM_WINS";
                    "PTS_home"; "FG_PCT_home"; "FT_PCT_home"; "FG3_PCT_home";
                    "AST_home"; "REB_home";
                    "PTS_away"; "FG_PCT_away"; "FT_PCT_away"; "FG3_PCT_away";
                    "AST_away"; "REB_away"] →
               row_get c lx.2 = row_get c lr.2) (rows df) (rows X).
Proof.
  unfold leakage_filter, series. intros H.
  apply bind_Ok in H as (y' & Hy & H). apply bind_Ok in H as (X' & HX & H).
  injection H as -> ->.
  apply bind_Ok in Hy as ([] & _ & Hy). apply mapM_Ok in Hy.
  apply drop_columns_Ok in HX as (_ & _ & HX).
  assert (Forall2 (λ lr lv, lv.1 = lr.1 ∧ row_get "HOME_TEAM_WINS" lr.2 = Some lv.2)
            (rows df) y) as HF.
  { eapply Forall2_impl; [exact Hy|]. intros lr lv Hlv. cbn beta in Hlv.
    destruct (row_get "HOME_TEAM_WINS" lr.2); [|discriminate].
    by injection Hlv as <-. }
  repeat split.
  - unfold labels. clear -HF. induction HF as [|?? ?? [? _]]; simpl; congruence.
  - unfold labels. rewrite HX, map_map. reflexivity.
  - eapply Forall2_impl; [exact HF|]. by intros ?? [_ ?].
  - rewrite HX. clear. induction (rows df) as [|lr l IH]; simpl; constructor; [|exact IH].
    intros c Hc. cbn [snd]. apply row_get_drop_notin. exact Hc.
Qed.

Lemma labels_follow_the_features_witness :
  ∃ df X y,
    historical_aggregator Samples.season = Ok df
    ∧ leakage_filter df = Ok (X, y)
    ∧ map fst y = labels X
    ∧ y = [(0, Flt 1); (1, Flt 0); (2, Flt 1); (3, Flt 1)].
Proof.
  eexists _, _, _. split; [vm_compute; reflexivity|].
  match goal with |- ?A ∧ _ => assert A as H by (vm_compute; reflexivity) end.
  split; [exact H|].
  destruct (labels_follow_the_features _ _ _ H) as (H1 & H2 & _).
  split; [by rewrite H1, H2|reflexivity].
Defined.

Lemma iloc_seq {A} (l : list A) : iloc (seq 0 (length l)) l = l.
Proof.
  unfold iloc. induction l as [|x l IH] using rev_ind; [done|].
  rewrite length_app. simpl. rewrite Nat.add_1_r, seq_S, omap_app. simpl.
  rewrite lookup_app_r by lia. rewrite Nat.sub_diag. simpl. f_equal.
  rewrite <- IH at 2. apply list_omap_ext.
  apply Forall2_same_length_lookup. split; [done|].
  intros i x1 x2 H1 H2. rewrite H1 in H2. injection H2 as <-.
  apply lookup_seq in H1 as [-> Hlt]. simpl. by rewrite lookup_app_l.
Qed.

Lemma iloc_length {A} (ps : list nat) (l : list A) :
  Forall (λ i, (i < length l)%nat) ps → length (iloc ps l) = length ps.
Proof.
  unfold iloc. induction 1 as [|i ps Hi _ IH]; [done|]. cbn.
  destruct (lookup_lt_is_Some_2 l i Hi) as [x Hx]. rewrite Hx. cbn.
  f_equal. exact IH.
Qed.

(** X4.  When the shuffle of scikit-learn is a permutation of the row
    positions, the split of line 362 cuts the rows in two without loss or
    repetition: the test part has [ceil(0.3 n)] rows, the training part
    the others, and the two parts together are the rows of [X]; the labels
    are cut at the same positions. *)
Theorem split_is_a_partition sk X y sp :
  permutation sk (RandomState sk 2424) (length (rows X)) ≡ₚ seq 0 (length (rows X)) →
  length y = length (rows X) →
  train_test_split sk X y = Ok sp →
  let n := Z.of_nat (length (rows X)) in
  Z.of_nat (length (rows (X_test sp))) = (3 * n + 9) / 10
  ∧ Z.of_nat (length (rows (X_train sp))) = n - (3 * n + 9) / 10
  ∧ rows (X_train sp) ++ rows (X_test sp) ≡ₚ rows X
  ∧ y_train sp ++ y_test sp ≡ₚ y
  ∧ length (y_train sp) = length (rows (X_train sp))
  ∧ length (y_test sp) = length (rows (X_test sp)).
Proof.
  intros Hp Hy. unfold train_test_split.
  set (n := length (rows X)) in *.
  set (p := permutation sk (RandomState sk 2424) n) in *.
  set (n_test := Z.to_nat ((3 * Z.of_nat n + 9) / 10)).
  case_decide as Hn; [discriminate|]. intros [= <-]. cbn [X_train X_test y_train y_test rows].
  assert (length p = n) as Hlen by (by rewrite Hp, length_seq).
  assert (n_test ≤ n)%nat as Hle by lia.
  assert (take (n - n_test) (drop n_test p) = drop n_test p) as ->.
  { apply take_ge. rewrite length_drop. lia. }
  assert (Forall (λ i, (i < n)%nat) p) as Hb.
  { rewrite Hp. apply Forall_forall. intros i Hi%elem_of_seq. lia. }
  assert (∀ {A} (l : list A), length l = n →
            iloc (drop n_test p) l ++ iloc (take n_test p) l ≡ₚ l) as Hperm.
  { intros A l Hl. unfold iloc. rewrite <- omap_app.
    rewrite (Permutation_app_comm (drop n_test p)), take_drop, Hp.
    rewrite <- Hl. apply reflexive_eq, iloc_seq. }
  assert (∀ {A} (l : list A), length l = n →
            length (iloc (take n_test p) l) = n_test
            ∧ length (iloc (drop n_test p) l) = (n - n_test)%nat) as Hlens.
  { intros A l Hl. rewrite !iloc_length.
    - rewrite length_take, length_drop. lia.
    - rewrite Hl. by apply Forall_drop.
    - rewrite Hl. by apply Forall_take. }
  destruct (Hlens _ (rows X) eq_refl) as [H1 H2]. destruct (Hlens _ y Hy) as [H3 H4].
  repeat split.
  - rewrite H1. unfold n_test. rewrite Z2Nat.id; [done|].
    apply Z.div_pos; lia.
  - rewrite H2. unfold n_test in *. rewrite Nat2Z.inj_sub by lia.
    rewrite Z2Nat.id; [done|]. apply Z.div_pos; lia.
  - by apply Hperm.
  - by apply Hperm.
  - congruence.
  - congruence.
Qed.

Lemma split_is_a_partition_witness :
  length (rows (X_test Samples.the_split)) = 1%nat
  ∧ rows (X_train Samples.the_split) ++ rows (X_test Samples.the_split)
    ≡ₚ rows Samples.X.
Proof.
  assert (train_test_split (Samples.toy []) Samples.X Samples.y = Ok Samples.the_split)
    as H by (vm_compute; reflexivity).
  destruct (split_is_a_partition (Samples.toy []) Samples.X Samples.y _
              (reflexivity _) eq_refl H) as (H1 & _ & H3 & _).
  split; [|exact H3].
  apply Nat2Z.inj. rewrite H1. reflexivity.
Defined.

(** X5.  The split raises, and the run ends before any classifier is
    built, exactly when the feature matrix has fewer than two rows: with
    [test_size=0.3] nothing would be left to train on. *)
Theorem split_needs_two_rows sk X y :
  (length (rows X) < 2)%nat
  ↔ train_test_split sk X y = Raise (ValueError "the resulting train set will be empty").
Proof.
  unfold train_test_split. case_decide as Hn; split; try done.
  - intros _.
    assert (length (rows X) < 2 ∨ 2 ≤ length (rows X))%nat as [|Hge] by lia; [done|].
    exfalso. revert Hn.
    assert ((3 * Z.of_nat (length (rows X)) + 9) / 10 < Z.of_nat (length (rows X))).
    { apply Z.div_lt_upper_bound; lia. }
    assert (0 <= (3 * Z.of_nat (length (rows X)) + 9) / 10) by (apply Z.div_pos; lia).
    lia.
  - intros Hlt. exfalso. apply Hn.
    destruct (length (rows X)) as [|[|n]]; [done|done|lia].
Qed.





Section Runs.
Context (sk : sklearn).
#[local] Existing Instance M_ret.
#[local] Existing Instance M_bind.

Lemma omap_fit_of_panel_fits sp refs :
  omap fit_of (panel_fits sp refs) = map (λ ref, (ref, X_train sp, y_train sp)) refs.
Proof. induction refs as [|r refs IH]; [done|]. simpl. f_equal. exact IH. Qed.

Lemma omap_fit_of_imap_new n (panel : list (family * params)) :
  omap fit_of (imap (λ i fp, EvNew (n + i) fp.1 fp.2) panel) = [].
Proof.
  revert n. induction panel as [|fp panel IH]; intros n; [done|].
  cbn [imap omap list_omap fit_of]. 
  rewrite <- (IH (S n)). f_equal. apply imap_ext. intros i x _. simpl.
  f_equal. lia.
Qed.

(** X6.  A selection that returns has built the sixteen candidates in
    the order of the list of lines 365-382, after the objects that
    existed, and has called [fit] once on each, in that order, every time
    on the training part of the one split; no call of [fit] sees the test
    part. *)
Theorem every_candidate_is_fitted_once_in_order X y (w : world sk) sp name w' :
  model_selection sk X y w = (Ok (sp, name), w') →
  families w'
  = families w ++ [ExtraTreeClassifier; DecisionTreeClassifier; MLPClassifier;
                   KNeighborsClassifier; AdaBoostClassifier;
                   GradientBoostingClassifier; BaggingClassifier;
                   RandomForestClassifier; BernoulliNB; GaussianNB;
                   LinearDiscriminantAnalysis; LogisticRegression;
                   LogisticRegressionCV; NuSVC; SVC; XGBClassifier]
  ∧ omap fit_of (trace w')
    = omap fit_of (trace w)
      ++ map (λ ref, (ref, X_train sp, y_train sp)) (seq (length (heap w)) 16).
Proof.
  intros H. apply model_selection_Ok in H as (_ & Hf & _ & table & _ & _ & Ht).
  split; [exact Hf|].
  rewrite Ht, !omap_app. unfold panel_news.
  rewrite omap_fit_of_imap_new, omap_fit_of_panel_fits.
  change (length PANEL) with 16%nat. cbn [omap list_omap fit_of app].
  by rewrite app_nil_r.
Qed.


(** X9.  On a fitted object that has [predict_proba] and
    [feature_importances_], with as many importances as feature names and
    a test part that can be scored, the report of lines 426-493 returns
    after exactly seven outputs, in this order: the banner, the accuracy,
    the header and the ranking of the importances (greatest first), the
    ROC chart, the importance chart and the file of the model, which holds
    the object that was just reported on.  It changes no object and draws
    no random number. *)
Theorem complete_report_outputs sp features final (w : world sk) f p m curve a :
  heap w !! final = Some (Estimator f p (Some m)) →
  has_predict_proba f p = true →
  has_feature_importances f = true →
  length features = length (feature_importances sk m) →
  roc_curve sk (y_test sp) (predict_proba sk m (X_test sp)) = Ok curve →
  roc_auc_score sk (y_test sp) (predict_proba sk m (X_test sp)) = Ok a →
  report sk sp features final w
  = (Ok (),
     World (heap w) (np_random w)
       (trace w ++
        [EvBanner;
         EvAccuracy (accuracy_score sk (y_test sp) (predict sk m (X_test sp)));
         EvImportanceHeader;
         EvImportances (sort_desc (zip features (feature_importances sk m)));
         EvRocChart curve.1 curve.2 a;
         EvImportanceChart (argsort_desc (feature_importances sk m))
                           (feature_importances sk m);
         EvPickle final])).
Proof.
  intros Ho Hpp Hfi Hlen Hc Ha. unfold report.
  erewrite M_bind_eq by (by eapply predict_object_eq).
  erewrite M_bind_eq by (erewrite predict_proba_object_eq by exact Ho; by rewrite Hpp).
  erewrite M_bind_eq by apply emit_eq.
  erewrite M_bind_eq by apply emit_eq.
  erewrite M_bind_eq
    by (erewrite feature_importances_object_eq by exact Ho; by rewrite Hfi).
  assert (ranked features (feature_importances sk m)
          = Ok (sort_desc (zip features (feature_importances sk m)))) as Hr.
  { unfold ranked. by rewrite decide_True. }
  erewrite M_bind_eq by (rewrite lift_eq, Hr; reflexivity).
  erewrite M_bind_eq by apply emit_eq.
  erewrite M_bind_eq by apply emit_eq.
  erewrite M_bind_eq by (rewrite lift_eq, Hc; reflexivity).
  erewrite M_bind_eq by (rewrite lift_eq, Ha; reflexivity).
  erewrite M_bind_eq by apply emit_eq.
  erewrite M_bind_eq
    by (erewrite feature_importances_object_eq by exact Ho; by rewrite Hfi).
  erewrite M_bind_eq by apply emit_eq.
  rewrite emit_eq. cbn [heap np_random trace]. by rewrite <- !app_assoc.
Qed.

End Runs.

Lemma every_candidate_is_fitted_once_in_order_witness :
  let sk := Samples.toy [] in
  ∃ w',
    model_selection sk Samples.X Samples.y (start sk 0)
      = (Ok (Samples.the_split, "ExtraTreeClassifier"), w')
    ∧ map (λ c, c.1.1) (omap fit_of (trace w')) = seq 0 16.
Proof.
  intros sk.
  set (out := model_selection sk Samples.X Samples.y (start sk 0)).
  assert (out = (Ok (Samples.the_split, "ExtraTreeClassifier"), out.2)) as E
    by (vm_compute; reflexivity).
  destruct (every_candidate_is_fitted_once_in_order sk _ _ _ _ _ _ E) as [_ H].
  exists out.2. split; [exact E|]. rewrite H. reflexivity.
Defined.


Lemma complete_report_outputs_witness :
  let m : model (Samples.toy []) := (ExtraTreeClassifier, 0, 2%nat) in
  let w := World (sk:=Samples.toy [])
             [Estimator ExtraTreeClassifier (Params None false) (Some m)] 0 [] in
  (report (Samples.toy []) Samples.the_split ["WEEKDAY"; "MONTH_NUM"] 0 w).1 = Ok ()
  ∧ last (trace (report (Samples.toy []) Samples.the_split
                   ["WEEKDAY"; "MONTH_NUM"] 0 w).2)
    = Some (EvPickle 0).
Proof.
  intros m w.
  rewrite (complete_report_outputs (Samples.toy []) Samples.the_split
             ["WEEKDAY"; "MONTH_NUM"] 0%nat w
             ExtraTreeClassifier (Params None false) m ([0; 1], [0; 1])%Q (Flt (1 # 2))
             eq_refl eq_refl eq_refl eq_refl eq_refl eq_refl).
  split; reflexivity.
Defined.

Lemma length_flat_map_ge {A B} (f : A → list B) (l : list A) :
  (∀ x, f x ≠ []) → (length l ≤ length (flat_map f l))%nat.
Proof.
  intros Hf. induction l as [|x l IH]; [done|]. cbn [flat_map length].
  rewrite length_app. specialize (Hf x). destruct (f x); [done|]. cbn [length]. lia.
Qed.

Lemma merge_left_Ok on left right df :
  merge_left on left right = Ok df →
  (length (rows left) ≤ length (rows df))%nat
  ∧ labels df = map Z.of_nat (seq 0 (length (rows df))).
Proof.
  unfold merge_left. intros H.
  apply bind_Ok in H as ([] & _ & H). apply bind_Ok in H as ([] & _ & H).
  injection H as <-. cbn [rows]. split.
  - unfold reset_index. rewrite length_imap. apply length_flat_map_ge.
    intros lr. cbn zeta. by destruct (List.filter _ (rows right)).
  - unfold labels, reset_index. cbn [rows].
    match goal with |- context [imap _ ?j] => generalize j as l end. intros l.
    rewrite length_imap. change (map fst (imap ?f l)) with (fst <$> imap f l).
    rewrite fmap_imap. change (map Z.of_nat ?x) with (Z.of_nat <$> x).
    symmetry. etrans; [symmetry; apply (imap_seq_0 l)|]. by apply imap_ext.
Qed.

(** X11.  The two team merges drop no game and number the rows afresh:
    the table after them has at least as many rows as before, and its row
    labels are 0, 1, 2, ... whatever the labels were.  These row numbers
    are what the standings join then takes for join keys. *)
Theorem team_merges_renumber_the_games df df_tm df' :
  team_enricher df df_tm = Ok df' →
  (length (rows df) ≤ length (rows df'))%nat
  ∧ labels df' = map Z.of_nat (seq 0 (length (rows df'))).
Proof.
  unfold team_enricher. intros H.
  apply bind_Ok in H as (sel1 & _ & H). apply bind_Ok in H as (df1 & H1 & H).
  apply bind_Ok in H as (sel2 & _ & H). apply bind_Ok in H as (df2 & H2 & H).
  injection H as <-.
  apply merge_left_Ok in H1 as [L1 _]. apply merge_left_Ok in H2 as [L2 E2].
  unfold rename, relabel in *. cbn [rows] in *. unfold labels in *. cbn [rows] in *.
  rewrite length_map in L2. rewrite length_map, map_map. cbn [fst].
  split; [lia|exact E2].
Qed.

Lemma team_merges_renumber_the_games_witness :
  ∃ df late df',
    load_games Samples.games = Ok df
    ∧ late = Frame (columns df) (drop 2 (rows df))
    ∧ team_enricher late (load_teams Samples.teams) = Ok df'
    ∧ labels late = [2; 3] ∧ labels df' = [0; 1].
Proof.
  eexists _, _, _. split; [vm_compute; reflexivity|]. split; [reflexivity|].
  match goal with |- ?A ∧ _ => assert A as H by (vm_compute; reflexivity) end.
  split; [exact H|]. split; [reflexivity|].
  rewrite (proj2 (team_merges_renumber_the_games _ _ _ H)). reflexivity.
Defined.






Lemma last_filter_Some {A} (P : A → bool) (l : list A) x :
  last (List.filter P l) = Some x →
  P x = true ∧ ∃ pre post, l = pre ++ x :: post ∧ ∀ y, y ∈ post → P y = false.
Proof.
  induction l as [|z l IH] using rev_ind; [done|].
  rewrite List.filter_app. cbn [List.filter]. destruct (P z) eqn:Ez.
  - rewrite last_snoc. intros [= <-]. split; [done|]. exists l, []. split; [done|].
    intros y Hy. by apply elem_of_nil in Hy.
  - rewrite app_nil_r. intros H. destruct (IH H) as (Hx & pre & post & -> & Hpost).
    split; [done|]. exists pre, (post ++ [z]). split; [by rewrite <- app_assoc|].
    intros y [Hy|Hy%list_elem_of_singleton]%elem_of_app; [by apply Hpost|by subst].
Qed.

Lemma last_filter_None {A} (P : A → bool) (l : list A) :
  last (List.filter P l) = None → ∀ y, y ∈ l → P y = false.
Proof.
  intros H y Hy. apply last_None in H.
  destruct (P y) eqn:Ey; [|done]. exfalso.
  assert (In y (List.filter P l)) as Hin by (apply filter_In; by rewrite <- list_elem_of_In).
  rewrite H in Hin. destruct Hin.
Qed.

(** X10.  The as-of join of either side looks at row labels only.  Every
    row that it keeps comes from a game row, under the label of that game
    row, and carries the cells of a standings row whose label is strictly
    below it and whose team is the team of the game: the last such
    standings row of the table.  No date is compared. *)
Theorem asof_join_matches_by_row_label side team_id df df_rnk df' :
  asof_join side team_id df df_rnk = Ok df' →
  ∀ lr', lr' ∈ rows df' →
    ∃ lr ls pre post,
      lr ∈ rows df ∧ lr'.1 = lr.1
      ∧ rows (add_suffix side df_rnk) = pre ++ ls :: post
      ∧ ls.1 < lr.1
      ∧ key_eqb (row_get team_id lr.2) (row_get ("TEAM_ID" +:+ side) ls.2) = true
      ∧ (∀ ls', ls' ∈ post →
           ¬ (ls'.1 < lr.1
              ∧ key_eqb (row_get team_id lr.2)
                        (row_get ("TEAM_ID" +:+ side) ls'.2) = true))
      ∧ map snd lr'.2 = map snd lr.2 ++ map snd ls.2.
Proof.
  unfold asof_join, merge_asof_index. intros H lr' Hlr'.
  apply bind_Ok in H as (j & Hj & H). injection H as <-.
  apply bind_Ok in Hj as ([] & _ & Hj). apply bind_Ok in Hj as ([] & Hreq & Hj).
  apply require_Ok in Hreq.
  destruct (negb (sorted (labels df))); [discriminate|].
  destruct (negb (sorted (labels _))); [discriminate|].
  injection Hj as <-. unfold dropna in Hlr'. cbn [rows] in Hlr'.
  apply list_elem_of_In, filter_In in Hlr' as [Hin Hnan].
  apply list_elem_of_In, list_elem_of_fmap in Hin as (lr & -> & Hlr).
  cbn [fst snd] in *. unfold asof_prior in *.
  destruct (last _) as [ls|] eqn:El.
  - apply last_filter_Some in El as (HP & pre & post & E & Hpost).
    apply andb_true_iff in HP as [Hlt Hkey]. apply Z.ltb_lt in Hlt.
    exists lr, ls, pre, post. repeat split; try done.
    + intros ls' Hls' [Hlt' Hkey']. specialize (Hpost ls' Hls').
      apply andb_false_iff in Hpost as [Hf|Hf]; [|congruence].
      apply Z.ltb_ge in Hf. lia.
    + unfold map_labels. by rewrite map_app, !map_map.
  - exfalso. apply negb_true_iff in Hnan. unfold row_has_nan in Hnan.
    rewrite existsb_app in Hnan. apply orb_false_elim in Hnan as [_ Hnan].
    unfold add_suffix, relabel in Hreq, Hnan. cbn [columns] in Hreq, Hnan.
    destruct (columns df_rnk) as [|c cs]; [by apply elem_of_nil in Hreq|].
    cbn [map nan_row existsb snd is_nan orb] in Hnan. discriminate.
Qed.

Lemma asof_join_matches_by_row_label_witness :
  ∃ df df_rnk df',
    JoinSample.df = Ok df ∧ JoinSample.df_rnk = Ok df_rnk
    ∧ asof_join "_homeTeam" "HOME_TEAM_ID" df df_rnk = Ok df'
    ∧ labels df' = [1; 2; 3]
    ∧ ∀ lr', lr' ∈ rows df' →
        ∃ ls, ls ∈ rows (add_suffix "_homeTeam" df_rnk) ∧ ls.1 < lr'.1.
Proof.
  eexists _, _, _. split; [vm_compute; reflexivity|].
  split; [vm_compute; reflexivity|].
  match goal with |- ?A ∧ _ => assert A as H by (vm_compute; reflexivity) end.
  split; [exact H|]. split; [reflexivity|].
  intros lr' Hlr'.
  destruct (asof_join_matches_by_row_label _ _ _ _ _ H lr' Hlr')
    as (lr & ls & pre & post & _ & E1 & E & Hlt & _).
  exists ls. split; [|exact (eq_ind_r (λ z, ls.1 < z) Hlt E1)].
  rewrite E. apply elem_of_app. right. apply list_elem_of_here.
Defined.

(** X13.  A table that lacks the points of the home side stops the
    historical step at its first block: [pivot_table] raises [KeyError]
    for the column, no later block runs and no difference is computed. *)
Theorem historical_step_needs_its_stats df :
  "PTS_home" ∉ columns df →
  historical_aggregator df = Raise (KeyError "PTS_home").
Proof.
  intros Hc. unfold historical_aggregator.
  assert (add_hists "HOME_TEAM_ID" HIST_HOME df = Raise (KeyError "PTS_home")) as ->;
    [|reflexivity].
  unfold add_hists, HIST_HOME. cbn [foldl fst snd].
  assert (add_hist "PTS_home" "HOME_TEAM_ID" "HIST_PPG_homeTeam" df
          = Raise (KeyError "PTS_home")) as E.
  { unfold add_hist, pivot_mean.
    assert (require "PTS_home" df = Raise (KeyError "PTS_home")) as ->; [|reflexivity].
    unfold require, has_column. by rewrite bool_decide_false. }
  cbn [mbind result_bind]. rewrite E. reflexivity.
Qed.

Lemma historical_step_needs_its_stats_witness :
  historical_aggregator Samples.X = Raise (KeyError "PTS_home").
Proof.
  apply historical_step_needs_its_stats.
  apply (bool_decide_unpack (_ ∉ _)). vm_compute. exact I.
Defined.

(** X14.  Without the column [HOME_TEAM_WINS] there is neither a label
    vector nor a feature matrix: line 343 raises [KeyError]. *)
Theorem labels_need_their_column df :
  "HOME_TEAM_WINS" ∉ columns df →
  leakage_filter df = Raise (KeyError "HOME_TEAM_WINS").
Proof.
  intros Hc. unfold leakage_filter, series, require, has_column.
  rewrite bool_decide_false by exact Hc. reflexivity.
Qed.

Lemma labels_need_their_column_witness :
  leakage_filter Samples.X = Raise (KeyError "HOME_TEAM_WINS").
Proof.
  apply labels_need_their_column.
  apply (bool_decide_unpack (_ ∉ _)). vm_compute. exact I.
Defined.
